(** * Out-of-core squaring over block files: model of [prototype.py]

    The program stores a non-negative integer as a little-endian sequence of
    one-byte blocks in a file and squares it by schoolbook multiplication
    directly against the files, counting block reads and writes in two global
    counters.

    The development has three layers:
    - a small model of the Python runtime the program relies on (binary file
      objects over a file system, integers, exceptions);
    - the program itself, function by function, in an exception-and-state
      monad over that runtime;
    - the properties: codec round trip, correctness of [square], its I/O
      accounting, its frame and its access pattern. *)

From Stdlib Require Import ZArith Lia.
From Stdlib Require Import Strings.Byte.
From stdpp Require Import gmap strings list list_numbers pretty.

Local Open Scope Z_scope.

(** ** Python runtime model *)

Module Py.

(** Exceptions the program can raise.  [OutOfFuel] is not a Python exception:
    it marks a [while] loop of the model that was given too few iterations. *)
Inductive exn :=
  | FileNotFoundError
  | OverflowError
  | OSError
  | UnsupportedOperation
  | ValueError
  | OutOfFuel.

Inductive outcome (A : Type) :=
  | Ok (a : A)
  | Raise (e : exn).
Arguments Ok {A} a.
Arguments Raise {A} e.

(** The three [open] modes the program uses. *)
Inductive mode := RB | WB | WBplus.

Definition readable (m : mode) : bool :=
  match m with RB | WBplus => true | WB => false end.

Definition writable (m : mode) : bool :=
  match m with WB | WBplus => true | RB => false end.

(** A file object: the path it was opened on, its mode, its stream position
    and whether it has been closed. *)
Record pyfile := PyFile {
  f_name : string;
  f_mode : mode;
  f_pos : Z;
  f_closed : bool
}.

(** Read and write calls that reached the file system, in order: the path, the
    byte offset and, for a write, the number of bytes.  No operation consults
    the history; it exists to state access-pattern properties. *)
Inductive io_event :=
  | EvRead (name : string) (offset : Z)
  | EvWrite (name : string) (offset : Z) (len : nat).

(** The whole state of a run: the file system (path to contents), the file
    objects created so far (a file object is referred to by its index), the
    module's two global counters, what has been printed, and the I/O
    history. *)
Record World := MkWorld {
  fs : gmap string (list byte);
  objs : list pyfile;
  reads : Z;
  writes : Z;
  stdout : list string;
  trace : list io_event
}.

Definition set_fs (w : World) (m : gmap string (list byte)) : World :=
  MkWorld m (objs w) (reads w) (writes w) (stdout w) (trace w).
Definition set_objs (w : World) (o : list pyfile) : World :=
  MkWorld (fs w) o (reads w) (writes w) (stdout w) (trace w).
Definition set_reads (w : World) (n : Z) : World :=
  MkWorld (fs w) (objs w) n (writes w) (stdout w) (trace w).
Definition set_writes (w : World) (n : Z) : World :=
  MkWorld (fs w) (objs w) (reads w) n (stdout w) (trace w).
Definition set_stdout (w : World) (l : list string) : World :=
  MkWorld (fs w) (objs w) (reads w) (writes w) l (trace w).
Definition set_trace (w : World) (t : list io_event) : World :=
  MkWorld (fs w) (objs w) (reads w) (writes w) (stdout w) t.

(** Computations: a state transformer that either returns a value or raises;
    the state reached when an exception is raised is kept, as in Python. *)
Definition M (A : Type) : Type := World -> outcome A * World.

Definition ret {A} (a : A) : M A := fun w => (Ok a, w).

Definition raise {A} (e : exn) : M A := fun w => (Raise e, w).

Definition bind {A B} (m : M A) (k : A -> M B) : M B :=
  fun w =>
    match m w with
    | (Ok a, w') => k a w'
    | (Raise e, w') => (Raise e, w')
    end.

(** [try: m finally: c]; the clean-up [c] cannot raise. *)
Definition finally {A} (m : M A) (c : World -> World) : M A :=
  fun w => let (r, w') := m w in (r, c w').

Definition lift {A} (r : outcome A) : M A := fun w => (r, w).

Declare Scope py_scope.
Delimit Scope py_scope with py.
Notation "x <- m ;; k" := (bind m (fun x => k))
  (at level 20, m at level 99, k at level 200) : py_scope.
Notation "m ;; k" := (bind m (fun _ => k))
  (at level 100, k at level 200, right associativity) : py_scope.
Local Open Scope py_scope.

(** [for x in l: body] *)
Fixpoint for_ {A} (l : list A) (body : A -> M unit) : M unit :=
  match l with
  | [] => ret tt
  | x :: l' => body x ;; for_ l' body
  end.

(** [for x in l: body], where the body reassigns one local variable that is
    live across iterations; [s] is its value on entry, the result its value on
    exit. *)
Fixpoint for_acc {A S} (l : list A) (s : S) (body : S -> A -> M S) : M S :=
  match l with
  | [] => ret s
  | x :: l' => s' <- body s x ;; for_acc l' s' body
  end.

(** [range(start, stop)] *)
Definition range (start stop : Z) : list Z := seqZ start (stop - start).

(** *** Integers and bytes *)

Definition byte_val (b : byte) : Z := Z.of_N (Byte.to_N b).

Definition byte_of_Z (z : Z) : byte :=
  match Byte.of_N (Z.to_N z) with
  | Some b => b
  | None => x00
  end.

(** [int.from_bytes(bs, "little")] *)
Fixpoint from_bytes_little (bs : list byte) : Z :=
  match bs with
  | [] => 0
  | b :: bs' => byte_val b + 256 * from_bytes_little bs'
  end.

Fixpoint le_bytes (len : nat) (v : Z) : list byte :=
  match len with
  | O => []
  | S len' => byte_of_Z (v mod 256) :: le_bytes len' (v / 256)
  end.

(** [v.to_bytes(len, "little")]: raises [OverflowError] when [v] is negative
    or does not fit in [len] bytes. *)
Definition to_bytes_little (v len : Z) : outcome (list byte) :=
  if (v <? 0) || (256 ^ len <=? v) then Raise OverflowError
  else Ok (le_bytes (Z.to_nat len) v).

(** *** File objects *)

(** The live file object behind a reference; using a closed file raises
    [ValueError]. *)
Definition the_file (file : nat) : M pyfile :=
  fun w =>
    match objs w !! file with
    | Some f => if f_closed f then (Raise ValueError, w) else (Ok f, w)
    | None => (Raise ValueError, w)
    end.

Definition contents (f : pyfile) : M (list byte) :=
  fun w =>
    match fs w !! f_name f with
    | Some data => (Ok data, w)
    | None => (Raise OSError, w)
    end.

Definition set_pos (file : nat) (f : pyfile) (pos : Z) : M unit :=
  fun w =>
    (Ok tt, set_objs w (<[file := PyFile (f_name f) (f_mode f) pos (f_closed f)]> (objs w))).

(** [open(name, mode)]: ["rb"] needs an existing file; ["wb"] and ["wb+"]
    create the file or truncate it to length zero.  The new file object is at
    position 0. *)
Definition open (name : string) (md : mode) : M nat :=
  fun w =>
    let file := length (objs w) in
    let w' := set_objs w (objs w ++ [PyFile name md 0 false]) in
    match md with
    | RB =>
        match fs w !! name with
        | Some _ => (Ok file, w')
        | None => (Raise FileNotFoundError, w)
        end
    | WB | WBplus => (Ok file, set_fs w' (<[name := []]> (fs w)))
    end.

(** [file.close()] *)
Definition close (file : nat) (w : World) : World :=
  match objs w !! file with
  | Some f => set_objs w (<[file := PyFile (f_name f) (f_mode f) (f_pos f) true]> (objs w))
  | None => w
  end.

(** [with open(name, mode) as file: body]: the file is closed on every exit
    path. *)
Definition with_open {A} (name : string) (md : mode) (body : nat -> M A) : M A :=
  file <- open name md ;;
  finally (body file) (close file).

(** [file.seek(offset)].  A negative offset is refused: with [ValueError]
    when it is below [-2^63] and does not fit the 64-bit offset type, with
    [OSError] from the system call otherwise.  An offset [>= 0] becomes the
    stream position.  An offset of [2^63] or more does not fit the offset
    type either; the model does not single it out, and every property of
    [read_block] and [write_block] at an index chosen by the caller is
    stated for indices below [2^63]. *)
Definition seek (file : nat) (offset : Z) : M Z :=
  f <- the_file file ;;
  if offset <? - 2 ^ 63 then raise ValueError
  else if offset <? 0 then raise OSError
  else set_pos file f offset ;; ret offset.

(** [file.seek(0, os.SEEK_END)] *)
Definition seek_end (file : nat) : M Z :=
  f <- the_file file ;;
  data <- contents f ;;
  set_pos file f (Z.of_nat (length data)) ;;
  ret (Z.of_nat (length data)).

(** [file.tell()] *)
Definition tell (file : nat) : M Z :=
  f <- the_file file ;;
  ret (f_pos f).

(** [file.read(n)]: at most [n] bytes from the stream position (all of the
    rest when [n] is negative), none at or past the end of the file. *)
Definition read (file : nat) (n : Z) : M (list byte) :=
  f <- the_file file ;;
  if readable (f_mode f) then
    data <- contents f ;;
    let rest := drop (Z.to_nat (f_pos f)) data in
    let bs := if n <? 0 then rest else take (Z.to_nat n) rest in
    set_pos file f (f_pos f + Z.of_nat (length bs)) ;;
    (fun w => (Ok bs, set_trace w (trace w ++ [EvRead (f_name f) (f_pos f)])))
  else raise UnsupportedOperation.

(** The contents of a file after writing [bs] at byte offset [pos]: a gap
    between the old end of the file and [pos] reads as zero bytes. *)
Definition write_at (data : list byte) (pos : nat) (bs : list byte) : list byte :=
  take pos data ++ replicate (pos - length data) x00 ++ bs
    ++ drop (pos + length bs) data.

(** [file.write(bs)] *)
Definition write (file : nat) (bs : list byte) : M Z :=
  f <- the_file file ;;
  if writable (f_mode f) then
    data <- contents f ;;
    set_pos file f (f_pos f + Z.of_nat (length bs)) ;;
    (fun w =>
       (Ok (Z.of_nat (length bs)),
        set_trace
          (set_fs w (<[f_name f := write_at data (Z.to_nat (f_pos f)) bs]> (fs w)))
          (trace w ++ [EvWrite (f_name f) (f_pos f) (length bs)])))
  else raise UnsupportedOperation.

(** [os.replace(src, dst)] *)
Definition os_replace (src dst : string) : M unit :=
  fun w =>
    match fs w !! src with
    | Some data => (Ok tt, set_fs w (<[dst := data]> (delete src (fs w))))
    | None => (Raise FileNotFoundError, w)
    end.

(** [print(line)] *)
Definition print (line : string) : M unit :=
  fun w => (Ok tt, set_stdout w (stdout w ++ [line])).

End Py.

Import Py.
Local Open Scope py_scope.

(** ** The program *)

Definition CHUNK_SIZE : Z := 1.

Definition BLOCK_MASK : Z := Z.shiftl 1 (CHUNK_SIZE * 8) - 1.

(** Reads a single CHUNK_SIZE block from the file at a given position. *)
Definition read_block (file : nat) (pos : Z) : M Z :=
  (fun w => (Ok tt, set_reads w (reads w + 1))) ;;
  seek file (pos * CHUNK_SIZE) ;;
  block <- read file CHUNK_SIZE ;;
  ret (match block with
       | [] => 0
       | _ => from_bytes_little block
       end).

(** Writes a single CHUNK_SIZE block to the file at a given position. *)
Definition write_block (file : nat) (pos value : Z) : M unit :=
  (fun w => (Ok tt, set_writes w (writes w + 1))) ;;
  seek file (pos * CHUNK_SIZE) ;;
  bs <- lift (to_bytes_little value CHUNK_SIZE) ;;
  write file bs ;;
  ret tt.

(** Gets the number of CHUNK_SIZE blocks in the file. *)
Definition get_file_size (file : nat) : M Z :=
  seek_end file ;;
  p <- tell file ;;
  ret (p / CHUNK_SIZE).

(** The [while carry > 0] loop of [square]; [fuel] bounds the number of
    iterations the model will run. *)
Fixpoint propagate_carry (fuel : nat) (outfile : nat) (k carry : Z) : M unit :=
  if carry >? 0 then
    match fuel with
    | O => raise OutOfFuel
    | S fuel' =>
        existing <- read_block outfile k ;;
        let new_value := existing + carry in
        let carry := Z.shiftr new_value (CHUNK_SIZE * 8) in
        let new_value := Z.land new_value BLOCK_MASK in
        write_block outfile k new_value ;;
        propagate_carry fuel' outfile (k + 1) carry
    end
  else ret tt.

(** Squares a number stored in a file, minimizing disk accesses. *)
Definition square (fuel : nat) (input_filename output_filename : string) : M unit :=
  with_open input_filename RB (fun infile =>
  with_open output_filename WBplus (fun outfile =>
    size <- get_file_size infile ;;
    for_ (range 0 size) (fun i =>
      block_i <- read_block infile i ;;
      carry <- for_acc (range i size) 0 (fun carry j =>
        block_j <- (if negb (i =? j)
                    then b <- read_block infile j ;; ret (2 * b)
                    else ret block_i) ;;
        existing <- read_block outfile (i + j) ;;
        let block_prod := block_i * block_j + carry + existing in
        let product := Z.land block_prod BLOCK_MASK in
        let carry := Z.shiftr block_prod (CHUNK_SIZE * 8) in
        write_block outfile (i + j) product ;;
        ret carry) ;;
      propagate_carry fuel outfile (i + size) carry))).

(** Converts a file-based number representation back to an integer. *)
Definition file_to_num (filename : string) : M Z :=
  with_open filename RB (fun f =>
    size <- get_file_size f ;;
    for_acc (range 0 size) 0 (fun res i =>
      b <- read_block f i ;;
      ret (res + Z.shiftl b (CHUNK_SIZE * 8 * i)))).

(** The [while n] loop of [num_to_file]. *)
Fixpoint num_to_file_loop (fuel : nat) (f : nat) (n : Z) : M unit :=
  if n =? 0 then ret tt
  else
    match fuel with
    | O => raise OutOfFuel
    | S fuel' =>
        bs <- lift (to_bytes_little (Z.land n BLOCK_MASK) CHUNK_SIZE) ;;
        write f bs ;;
        num_to_file_loop fuel' f (Z.shiftr n (CHUNK_SIZE * 8))
    end.

(** Writes a number to a file in little-endian format. *)
Definition num_to_file (fuel : nat) (n : Z) (filename : string) : M unit :=
  with_open filename WB (fun f => num_to_file_loop fuel f n).

(** The module's top level: the counters, the initial number 3, six
    squarings with the result renamed over the operand, and the report. *)
Definition main (fuel : nat) : M unit :=
  (fun w => (Ok tt, set_reads (set_writes w 0) 0)) ;;
  num_to_file fuel 3 "num.bin" ;;
  for_ (range 0 6) (fun i =>
    square fuel "num.bin" "result.bin" ;;
    os_replace "result.bin" "num.bin" ;;
    v <- file_to_num "num.bin" ;;
    print ("3**" +:+ pretty (2 ^ (i + 1)) +:+ " = " +:+ pretty v)) ;;
  (fun w =>
     print ("Total reads: " +:+ pretty (reads w) +:+ ", Total writes: "
              +:+ pretty (writes w)) w).

(** The world before the module runs: no files, no file objects. *)
Definition empty_world : World := MkWorld ∅ [] 0 0 [] [].

(** ** Bytes and little-endian values *)

Section Bytes.

Lemma byte_val_range (b : byte) : 0 <= byte_val b < 256.
Proof.
  unfold byte_val. pose proof (Byte.to_N_bounded b). lia.
Qed.

Lemma byte_val_of_Z (z : Z) : 0 <= z < 256 -> byte_val (byte_of_Z z) = z.
Proof.
  intros Hz. unfold byte_val, byte_of_Z.
  destruct (Byte.of_N (Z.to_N z)) as [b|] eqn:E.
  - apply Byte.to_of_N in E. rewrite E. lia.
  - apply Byte.of_N_None_iff in E. lia.
Qed.

Lemma from_bytes_little_nonneg (l : list byte) : 0 <= from_bytes_little l.
Proof.
  induction l as [|b l IH]; simpl; [lia|].
  pose proof (byte_val_range b). lia.
Qed.

Lemma from_bytes_little_bound (l : list byte) :
  from_bytes_little l < 256 ^ Z.of_nat (length l).
Proof.
  induction l as [|b l IH]; [simpl; lia|].
  cbn [from_bytes_little length]. rewrite Nat2Z.inj_succ, Z.pow_succ_r by lia.
  pose proof (byte_val_range b). lia.
Qed.

Lemma from_bytes_little_app (l1 l2 : list byte) :
  from_bytes_little (l1 ++ l2)
  = from_bytes_little l1 + 256 ^ Z.of_nat (length l1) * from_bytes_little l2.
Proof.
  induction l1 as [|b l1 IH]; [simpl; lia|].
  cbn [app from_bytes_little length]. rewrite IH, Nat2Z.inj_succ, Z.pow_succ_r by lia.
  ring.
Qed.

Lemma from_bytes_little_zeros (n : nat) : from_bytes_little (replicate n x00) = 0.
Proof.
  induction n as [|n IH]; [done|]. cbn [replicate from_bytes_little].
  rewrite IH. reflexivity.
Qed.

(** The block stored at index [k], zero past the end: what a block read
    returns. *)
Definition block_at (data : list byte) (k : nat) : Z :=
  match data !! k with
  | Some b => byte_val b
  | None => 0
  end.

Lemma block_at_range data k : 0 <= block_at data k < 256.
Proof.
  unfold block_at. destruct (data !! k); [apply byte_val_range | lia].
Qed.


Lemma from_bytes_little_drop (data : list byte) (k : nat) :
  from_bytes_little (drop k data)
  = block_at data k + 256 * from_bytes_little (drop (S k) data).
Proof.
  revert data; induction k as [|k IH]; intros [|b data]; try done.
  cbn [drop]. rewrite IH. reflexivity.
Qed.

Lemma from_bytes_little_take_drop (data : list byte) (k : nat) :
  from_bytes_little data
  = from_bytes_little (take k data)
    + 256 ^ Z.of_nat k * from_bytes_little (drop k data).
Proof.
  rewrite <- (take_drop k data) at 1. rewrite from_bytes_little_app.
  destruct (decide (k <= length data)%nat) as [Hle|Hgt].
  - by rewrite length_take_le.
  - rewrite (drop_ge data k) by lia. simpl. lia.
Qed.

Lemma from_bytes_little_take_S (data : list byte) (k : nat) :
  from_bytes_little (take (S k) data)
  = from_bytes_little (take k data) + 256 ^ Z.of_nat k * block_at data k.
Proof.
  rewrite (from_bytes_little_take_drop (take (S k) data) k).
  rewrite take_take, Nat.min_l by lia. f_equal. f_equal.
  rewrite from_bytes_little_drop.
  rewrite (drop_ge (take (S k) data) (S k)) by (rewrite length_take; lia).
  unfold block_at. rewrite lookup_take_lt by lia. simpl. lia.
Qed.

Lemma from_bytes_little_write_at (data : list byte) (k : nat) (b : byte) :
  from_bytes_little (write_at data k [b]) + 256 ^ Z.of_nat k * block_at data k
  = from_bytes_little data + 256 ^ Z.of_nat k * byte_val b.
Proof.
  rewrite (from_bytes_little_take_drop data k).
  rewrite (from_bytes_little_drop data k).
  unfold write_at. rewrite !from_bytes_little_app, from_bytes_little_zeros.
  rewrite length_replicate, length_take. cbn [length from_bytes_little].
  replace (k + 1)%nat with (S k) by lia.
  destruct (decide (k <= length data)%nat) as [Hle|Hgt].
  - replace (k - length data)%nat with 0%nat by lia.
    rewrite Nat.min_l by lia.
    change (256 ^ Z.of_nat 0) with 1. change (256 ^ Z.of_nat 1) with 256. ring.
  - rewrite Nat.min_r by lia.
    replace (Z.of_nat k) with (Z.of_nat (length data) + Z.of_nat (k - length data)) by lia.
    rewrite Z.pow_add_r by lia. change (256 ^ Z.of_nat 1) with 256. ring.
Qed.

Lemma length_write_at (data : list byte) (k : nat) (b : byte) :
  length (write_at data k [b]) = (length data `max` S k)%nat.
Proof.
  unfold write_at.
  rewrite !length_app, length_take, length_replicate, length_drop. simpl. lia.
Qed.



End Bytes.

(** ** Running computations *)

(** [runs m w a w']: from world [w], [m] returns [a] without raising and
    leaves world [w']. *)
Definition runs {A} (m : M A) (w : World) (a : A) (w' : World) : Prop :=
  m w = (Ok a, w').

Lemma runs_ret {A} (a : A) w : runs (ret a) w a w.
Proof. reflexivity. Qed.

Lemma runs_bind {A B} (m : M A) (k : A -> M B) w a w1 b w2 :
  runs m w a w1 -> runs (k a) w1 b w2 -> runs (bind m k) w b w2.
Proof. unfold runs, bind. by intros ->. Qed.

Lemma runs_finally {A} (m : M A) c w a w1 :
  runs m w a w1 -> runs (finally m c) w a (c w1).
Proof. unfold runs, finally. by intros ->. Qed.

(** Loop rule for [for_acc] over a range: an invariant [I] indexed by the
    loop variable, established on entry and preserved by the body, holds on
    exit. *)
Lemma for_acc_range {S} (I : Z -> S -> World -> Prop)
    (body : S -> Z -> M S) (lo hi : Z) :
  lo <= hi ->
  (forall j s w, lo <= j < hi -> I j s w ->
     exists s' w', runs (body s j) w s' w' /\ I (j + 1) s' w') ->
  forall s w, I lo s w ->
    exists s' w', runs (for_acc (range lo hi) s body) w s' w' /\ I hi s' w'.
Proof.
  intros Hle Hbody.
  assert (Hgen : forall (n : nat) j s w, Z.of_nat n = hi - j -> lo <= j ->
            I j s w ->
            exists s' w', runs (for_acc (range j hi) s body) w s' w' /\ I hi s' w').
  { induction n as [|n IH]; intros j s w Hn Hj HI.
    - assert (j = hi) as -> by lia.
      unfold range. rewrite seqZ_nil by lia. exists s, w. split; [apply runs_ret | done].
    - unfold range. rewrite seqZ_cons by lia. cbn [for_acc].
      destruct (Hbody j s w) as (s1 & w1 & Hrun & HI1); [lia | done |].
      destruct (IH (j + 1) s1 w1) as (s2 & w2 & Hrun2 & HI2); [lia | lia | done |].
      exists s2, w2. split; [|done].
      eapply runs_bind; [exact Hrun|].
      unfold range in Hrun2.
      replace (Z.succ j) with (j + 1) by lia.
      replace (Z.pred (hi - j)) with (hi - (j + 1)) by lia. exact Hrun2. }
  intros s w HI. apply (Hgen (Z.to_nat (hi - lo))); [lia | lia | done].
Qed.

(** The same rule for a [for] loop with no loop-carried variable. *)
Lemma for_range (I : Z -> World -> Prop) (body : Z -> M unit) (lo hi : Z) :
  lo <= hi ->
  (forall j w, lo <= j < hi -> I j w ->
     exists w', runs (body j) w tt w' /\ I (j + 1) w') ->
  forall w, I lo w ->
    exists w', runs (for_ (range lo hi) body) w tt w' /\ I hi w'.
Proof.
  intros Hle Hbody.
  assert (Hgen : forall (n : nat) j w, Z.of_nat n = hi - j -> lo <= j ->
            I j w ->
            exists w', runs (for_ (range j hi) body) w tt w' /\ I hi w').
  { induction n as [|n IH]; intros j w Hn Hj HI.
    - assert (j = hi) as -> by lia.
      unfold range. rewrite seqZ_nil by lia. exists w. split; [apply runs_ret | done].
    - unfold range. rewrite seqZ_cons by lia. cbn [for_].
      destruct (Hbody j w) as (w1 & Hrun & HI1); [lia | done |].
      destruct (IH (j + 1) w1) as (w2 & Hrun2 & HI2); [lia | lia | done |].
      exists w2. split; [|done].
      eapply runs_bind; [exact Hrun|].
      unfold range in Hrun2.
      replace (Z.succ j) with (j + 1) by lia.
      replace (Z.pred (hi - j)) with (hi - (j + 1)) by lia. exact Hrun2. }
  intros w HI. apply (Hgen (Z.to_nat (hi - lo))); [lia | lia | done].
Qed.

(** ** File primitives *)

Section Primitives.

Context (w : World) (file : nat) (f : pyfile).
Hypothesis Hfile : objs w !! file = Some f.
Hypothesis Hopen : f_closed f = false.

Lemma the_file_runs : runs (the_file file) w f w.
Proof. unfold runs, the_file. by rewrite Hfile, Hopen. Qed.

Lemma seek_runs (offset : Z) :
  0 <= offset ->
  runs (seek file offset) w offset
    (set_objs w (<[file := PyFile (f_name f) (f_mode f) offset false]> (objs w))).
Proof.
  intros Hoff. unfold seek. eapply runs_bind; [apply the_file_runs|].
  destruct (offset <? - 2 ^ 63) eqn:E0; [lia|].
  destruct (offset <? 0) eqn:E; [lia|].
  eapply runs_bind; [|apply runs_ret].
  unfold runs, set_pos. by rewrite Hopen.
Qed.

Lemma seek_negative (offset : Z) :
  offset < 0 ->
  seek file offset w
  = (Raise (if offset <? - 2 ^ 63 then ValueError else OSError), w).
Proof.
  intros Hoff. unfold seek, bind. rewrite the_file_runs.
  destruct (offset <? - 2 ^ 63) eqn:E0; [done|].
  destruct (offset <? 0) eqn:E; [done | lia].
Qed.

Lemma seek_end_runs (data : list byte) :
  fs w !! f_name f = Some data ->
  runs (seek_end file) w (Z.of_nat (length data))
    (set_objs w (<[file := PyFile (f_name f) (f_mode f) (Z.of_nat (length data)) false]>
                   (objs w))).
Proof.
  intros Hdata. unfold seek_end. eapply runs_bind; [apply the_file_runs|].
  eapply runs_bind; [unfold runs, contents; by rewrite Hdata|].
  eapply runs_bind; [|apply runs_ret].
  unfold runs, set_pos. by rewrite Hopen.
Qed.

Lemma tell_runs : runs (tell file) w (f_pos f) w.
Proof.
  unfold tell. eapply runs_bind; [apply the_file_runs | apply runs_ret].
Qed.

Lemma read_runs (data : list byte) (n : Z) :
  readable (f_mode f) = true ->
  fs w !! f_name f = Some data ->
  0 <= n ->
  let bs := take (Z.to_nat n) (drop (Z.to_nat (f_pos f)) data) in
  runs (read file n) w bs
    (set_trace
       (set_objs w (<[file := PyFile (f_name f) (f_mode f)
                                (f_pos f + Z.of_nat (length bs)) false]> (objs w)))
       (trace w ++ [EvRead (f_name f) (f_pos f)])).
Proof.
  intros Hmode Hdata Hn bs. unfold read.
  eapply runs_bind; [apply the_file_runs|]. rewrite Hmode.
  eapply runs_bind; [unfold runs, contents; by rewrite Hdata|].
  destruct (n <? 0) eqn:E; [lia|].
  eapply runs_bind; [unfold runs, set_pos; by rewrite Hopen|].
  reflexivity.
Qed.

Lemma write_runs (data bs : list byte) :
  writable (f_mode f) = true ->
  fs w !! f_name f = Some data ->
  runs (write file bs) w (Z.of_nat (length bs))
    (set_trace
       (set_fs
          (set_objs w (<[file := PyFile (f_name f) (f_mode f)
                                   (f_pos f + Z.of_nat (length bs)) false]> (objs w)))
          (<[f_name f := write_at data (Z.to_nat (f_pos f)) bs]> (fs w)))
       (trace w ++ [EvWrite (f_name f) (f_pos f) (length bs)])).
Proof.
  intros Hmode Hdata. unfold write.
  eapply runs_bind; [apply the_file_runs|]. rewrite Hmode.
  eapply runs_bind; [unfold runs, contents; by rewrite Hdata|].
  eapply runs_bind; [unfold runs, set_pos; by rewrite Hopen|].
  reflexivity.
Qed.

End Primitives.

Lemma to_bytes_little_block (v : Z) :
  0 <= v < 256 -> to_bytes_little v CHUNK_SIZE = Ok [byte_of_Z v].
Proof.
  intros Hv. unfold to_bytes_little, CHUNK_SIZE.
  destruct (v <? 0) eqn:E1; [lia|].
  change (256 ^ 1) with 256. destruct (256 <=? v) eqn:E2; [lia|].
  simpl. by rewrite Z.mod_small.
Qed.


(** ** Block operations *)

Lemma runs_ret_eq {A} (a b : A) w w' : a = b -> w = w' -> runs (ret a) w b w'.
Proof. by intros -> ->. Qed.

Lemma first_block (data : list byte) (k : nat) :
  match take 1 (drop k data) with
  | [] => 0
  | _ => from_bytes_little (take 1 (drop k data))
  end = block_at data k.
Proof.
  unfold block_at.
  replace (data !! k) with (drop k data !! 0%nat)
    by (rewrite lookup_drop; f_equal; lia).
  destruct (drop k data) as [|b rest]; [done|].
  simpl. lia.
Qed.

Section BlockOps.

Context (w : World) (file : nat) (f : pyfile) (data : list byte).
Hypothesis Hfile : objs w !! file = Some f.
Hypothesis Hopen : f_closed f = false.
Hypothesis Hdata : fs w !! f_name f = Some data.

(** A block read returns the block at [pos], or 0 at or past the end of the
    file; it only moves the stream position, counts one read and records the
    access. *)
Lemma read_block_runs (pos : Z) :
  readable (f_mode f) = true ->
  0 <= pos ->
  exists p,
    runs (read_block file pos) w (block_at data (Z.to_nat pos))
      (MkWorld (fs w) (<[file := PyFile (f_name f) (f_mode f) p false]> (objs w))
         (reads w + 1) (writes w) (stdout w)
         (trace w ++ [EvRead (f_name f) pos])).
Proof.
  intros Hmode Hpos. eexists. unfold read_block.
  eapply runs_bind; [reflexivity|].
  eapply runs_bind.
  { eapply seek_runs with (f := f); [exact Hfile | exact Hopen | unfold CHUNK_SIZE; lia]. }
  eapply runs_bind.
  { eapply read_runs with (data := data);
      [ cbn; apply list_lookup_insert_eq; by eapply lookup_lt_Some
      | done | exact Hmode | exact Hdata | unfold CHUNK_SIZE; lia ]. }
  cbn. apply runs_ret_eq.
  - unfold CHUNK_SIZE. rewrite Z.mul_1_r. apply first_block.
  - unfold set_trace, set_objs, set_reads; cbn. rewrite list_insert_insert_eq.
    unfold CHUNK_SIZE. rewrite Z.mul_1_r. reflexivity.
Qed.

(** A block write of an in-range value stores that byte at [pos], counts one
    write and records the access. *)
Lemma write_block_runs (pos value : Z) :
  writable (f_mode f) = true ->
  0 <= pos ->
  0 <= value < 256 ->
  runs (write_block file pos value) w tt
    (MkWorld (<[f_name f := write_at data (Z.to_nat pos) [byte_of_Z value]]> (fs w))
       (<[file := PyFile (f_name f) (f_mode f) (pos + 1) false]> (objs w))
       (reads w) (writes w + 1) (stdout w)
       (trace w ++ [EvWrite (f_name f) pos 1])).
Proof.
  intros Hmode Hpos Hval. unfold write_block.
  eapply runs_bind; [reflexivity|].
  eapply runs_bind.
  { eapply seek_runs with (f := f); [exact Hfile | exact Hopen | unfold CHUNK_SIZE; lia]. }
  eapply runs_bind.
  { unfold runs, lift. by rewrite to_bytes_little_block. }
  eapply runs_bind.
  { eapply write_runs with (data := data);
      [ cbn; apply list_lookup_insert_eq; by eapply lookup_lt_Some
      | done | exact Hmode | exact Hdata ]. }
  cbn. apply runs_ret_eq; [done|].
  unfold set_trace, set_fs, set_objs, set_writes; cbn. rewrite list_insert_insert_eq.
  unfold CHUNK_SIZE. rewrite Z.mul_1_r. reflexivity.
Qed.


(** The size in blocks is the length of the file; measuring it only moves the
    stream position. *)
Lemma get_file_size_runs :
  runs (get_file_size file) w (Z.of_nat (length data))
    (set_objs w (<[file := PyFile (f_name f) (f_mode f) (Z.of_nat (length data)) false]>
                   (objs w))).
Proof.
  unfold get_file_size.
  eapply runs_bind; [by eapply seek_end_runs|].
  eapply runs_bind.
  { eapply tell_runs; [cbn; apply list_lookup_insert_eq; by eapply lookup_lt_Some | done]. }
  apply runs_ret_eq; [|done]. cbn. unfold CHUNK_SIZE. by rewrite Z.div_1_r.
Qed.

End BlockOps.

(** ** Stores as numbers, indexed by integers *)

(** The block at index [k] of a store, its value from block [k] upwards, and
    the store after block [k] is set to [v]. *)
Definition blk (data : list byte) (k : Z) : Z := block_at data (Z.to_nat k).

Definition tailv (data : list byte) (k : Z) : Z :=
  from_bytes_little (drop (Z.to_nat k) data).

Definition put (data : list byte) (k v : Z) : list byte :=
  write_at data (Z.to_nat k) [byte_of_Z v].

Lemma blk_range data k : 0 <= blk data k < 256.
Proof. apply block_at_range. Qed.

Lemma tailv_0 data : tailv data 0 = from_bytes_little data.
Proof. reflexivity. Qed.

Lemma tailv_nonneg data k : 0 <= tailv data k.
Proof. apply from_bytes_little_nonneg. Qed.

Lemma tailv_end data k : Z.of_nat (length data) <= k -> tailv data k = 0.
Proof. intros H. unfold tailv. by rewrite drop_ge by lia. Qed.

Lemma tailv_step data k :
  0 <= k -> tailv data k = blk data k + 256 * tailv data (k + 1).
Proof.
  intros Hk. unfold tailv, blk. rewrite from_bytes_little_drop.
  replace (Z.to_nat (k + 1)) with (S (Z.to_nat k)) by lia. reflexivity.
Qed.

Lemma put_value data k v :
  0 <= k -> 0 <= v < 256 ->
  from_bytes_little (put data k v) + 256 ^ k * blk data k
  = from_bytes_little data + 256 ^ k * v.
Proof.
  intros Hk Hv. unfold put, blk.
  pose proof (from_bytes_little_write_at data (Z.to_nat k) (byte_of_Z v)) as H.
  rewrite byte_val_of_Z in H by done. by rewrite Z2Nat.id in H.
Qed.

Lemma length_put data k v :
  0 <= k -> Z.of_nat (length (put data k v)) = Z.of_nat (length data) `max` (k + 1).
Proof.
  intros Hk. unfold put. rewrite length_write_at. lia.
Qed.



Lemma land_block_mask x : Z.land x BLOCK_MASK = x mod 256.
Proof.
  change BLOCK_MASK with (Z.ones 8). rewrite Z.land_ones by lia. reflexivity.
Qed.

Lemma shiftr_chunk x : Z.shiftr x (CHUNK_SIZE * 8) = x / 256.
Proof.
  change (CHUNK_SIZE * 8) with 8. rewrite Z.shiftr_div_pow2 by lia. reflexivity.
Qed.

Lemma operand_square_bound (data : list byte) :
  from_bytes_little data * from_bytes_little data < 256 ^ (2 * Z.of_nat (length data)).
Proof.
  pose proof (from_bytes_little_nonneg data). pose proof (from_bytes_little_bound data).
  replace (2 * Z.of_nat (length data))
    with (Z.of_nat (length data) + Z.of_nat (length data)) by lia.
  rewrite Z.pow_add_r by lia. nia.
Qed.

(** All writes recorded in a history went to file [name], below byte offset
    [bound]. *)
Definition writes_within (name : string) (bound : Z) (tr : list io_event) : Prop :=
  Forall (fun ev =>
            match ev with
            | EvRead _ _ => True
            | EvWrite n off len =>
                n = name /\ Z.of_nat len = CHUNK_SIZE /\ 0 <= off
                /\ off + Z.of_nat len <= bound
            end) tr.

Lemma writes_within_app name bound tr1 tr2 :
  writes_within name bound tr1 -> writes_within name bound tr2 ->
  writes_within name bound (tr1 ++ tr2).
Proof. unfold writes_within. intros. by apply Forall_app. Qed.

Lemma writes_within_mono name b1 b2 tr :
  b1 <= b2 -> writes_within name b1 tr -> writes_within name b2 tr.
Proof.
  unfold writes_within. intros Hb H. eapply Forall_impl; [exact H|].
  intros [?|? ? ?]; [done|]. intros (? & ? & ? & ?).
  repeat split; [done | done | done | lia].
Qed.

(** ** One squaring session: an operand file open for reading and a distinct
    result file open for update *)

Section Session.

Context (infile outfile : nat) (inp out : string) (din : list byte).
Hypothesis Hpaths : inp <> out.
Hypothesis Hobjs : infile <> outfile.

Record session (w : World) (dout : list byte) : Prop := {
  ses_in : exists p, objs w !! infile = Some (PyFile inp RB p false);
  ses_out : exists p, objs w !! outfile = Some (PyFile out WBplus p false);
  ses_din : fs w !! inp = Some din;
  ses_dout : fs w !! out = Some dout
}.

(** What a stretch of a session did to the world: the result file now holds
    [dout'], [r] reads and [wr] writes were counted, [tr] was appended to the
    history, and nothing else in the file system or on the console changed. *)
Record steps (w w' : World) (dout' : list byte) (r wr : Z) (tr : list io_event)
  : Prop := {
  st_fs : fs w' = <[out := dout']> (fs w);
  st_reads : reads w' = reads w + r;
  st_writes : writes w' = writes w + wr;
  st_stdout : stdout w' = stdout w;
  st_trace : trace w' = trace w ++ tr
}.

Lemma steps_refl w dout : session w dout -> steps w w dout 0 0 [].
Proof using Type.
  clear Hpaths Hobjs. intros [_ _ _ Hd]. split; try done; try lia.
  - by rewrite insert_id.
  - by rewrite app_nil_r.
Qed.

Lemma steps_trans w w1 w2 d1 d2 r1 r2 wr1 wr2 tr1 tr2 :
  steps w w1 d1 r1 wr1 tr1 -> steps w1 w2 d2 r2 wr2 tr2 ->
  steps w w2 d2 (r1 + r2) (wr1 + wr2) (tr1 ++ tr2).
Proof using Type.
  clear Hpaths Hobjs. intros [Hf1 Hr1 Hw1 Hs1 Ht1] [Hf2 Hr2 Hw2 Hs2 Ht2]. split.
  - by rewrite Hf2, Hf1, insert_insert_eq.
  - lia.
  - lia.
  - congruence.
  - by rewrite Ht2, Ht1, app_assoc.
Qed.

Lemma ses_read_in w dout pos :
  session w dout -> 0 <= pos ->
  exists w', runs (read_block infile pos) w (blk din pos) w'
    /\ session w' dout /\ steps w w' dout 1 0 [EvRead inp pos].
Proof.
  intros [[p Hin] [q Hout] Hdin Hdout] Hpos.
  destruct (read_block_runs w infile _ din Hin eq_refl Hdin pos eq_refl Hpos)
    as [p' Hrun].
  eexists. split; [exact Hrun|]. split.
  - split; cbn.
    + eexists. apply list_lookup_insert_eq. by eapply lookup_lt_Some.
    + exists q. by rewrite list_lookup_insert_ne.
    + done.
    + done.
  - split; cbn; [by rewrite insert_id | done | lia | done | done].
Qed.

Lemma ses_read_out w dout pos :
  session w dout -> 0 <= pos ->
  exists w', runs (read_block outfile pos) w (blk dout pos) w'
    /\ session w' dout /\ steps w w' dout 1 0 [EvRead out pos].
Proof.
  intros [[p Hin] [q Hout] Hdin Hdout] Hpos.
  destruct (read_block_runs w outfile _ dout Hout eq_refl Hdout pos eq_refl Hpos)
    as [p' Hrun].
  eexists. split; [exact Hrun|]. split.
  - split; cbn.
    + exists p. by rewrite list_lookup_insert_ne.
    + eexists. apply list_lookup_insert_eq. by eapply lookup_lt_Some.
    + done.
    + done.
  - split; cbn; [by rewrite insert_id | done | lia | done | done].
Qed.

Lemma ses_write_out w dout pos v :
  session w dout -> 0 <= pos -> 0 <= v < 256 ->
  exists w', runs (write_block outfile pos v) w tt w'
    /\ session w' (put dout pos v)
    /\ steps w w' (put dout pos v) 0 1 [EvWrite out pos 1].
Proof.
  intros [[p Hin] [q Hout] Hdin Hdout] Hpos Hv.
  pose proof (write_block_runs w outfile _ dout Hout eq_refl Hdout pos v eq_refl Hpos Hv)
    as Hrun.
  eexists. split; [exact Hrun|]. split.
  - split; cbn.
    + exists p. by rewrite list_lookup_insert_ne.
    + eexists. apply list_lookup_insert_eq. by eapply lookup_lt_Some.
    + by rewrite lookup_insert_ne.
    + by rewrite lookup_insert_eq.
  - split; cbn; try done; lia.
Qed.

(** Adding [x] into result block [idx]: the read of the existing block
    followed by the write of the low byte of the sum, the high part being the
    carry out. *)
Lemma accumulate w dout idx x :
  session w dout -> 0 <= idx -> 0 <= x ->
  let total := x + blk dout idx in
  exists w1 w2 dout',
    runs (read_block outfile idx) w (blk dout idx) w1
    /\ runs (write_block outfile idx (total mod 256)) w1 tt w2
    /\ session w2 dout'
    /\ steps w w2 dout' 1 1 [EvRead out idx; EvWrite out idx 1]
    /\ from_bytes_little dout' + total / 256 * 256 ^ (idx + 1)
       = from_bytes_little dout + x * 256 ^ idx
    /\ 0 <= total / 256
    /\ Z.of_nat (length dout') = Z.of_nat (length dout) `max` (idx + 1).
Proof.
  intros Hses Hidx Hx total.
  pose proof (blk_range dout idx) as Hb.
  assert (0 <= total mod 256 < 256) as Hm by (apply Z.mod_pos_bound; lia).
  destruct (ses_read_out w dout idx Hses Hidx) as (w1 & Hr1 & Hs1 & Hst1).
  destruct (ses_write_out w1 dout idx (total mod 256) Hs1 Hidx Hm)
    as (w2 & Hr2 & Hs2 & Hst2).
  exists w1, w2, (put dout idx (total mod 256)).
  split; [done|]. split; [done|]. split; [done|]. split.
  { pose proof (steps_trans _ _ _ _ _ _ _ _ _ _ _ Hst1 Hst2) as H. exact H. }
  split; [|split].
  - pose proof (put_value dout idx (total mod 256) Hidx Hm) as Hput.
    rewrite Z.pow_add_r by lia. change (256 ^ 1) with 256.
    pose proof (Z.div_mod total 256 ltac:(lia)) as Hdm.
    unfold total in *. nia.
  - apply Z.div_pos; lia.
  - by apply length_put.
Qed.

End Session.

(** ** The loops of [square] *)

(** The bodies of the inner and of the outer loop of [square], named so that
    the loops can be reasoned about one at a time; [square_loops] shows that
    [square] is made of exactly these. *)
Definition square_inner (infile outfile : nat) (i block_i : Z) (carry j : Z) : M Z :=
  block_j <- (if negb (i =? j)
              then b <- read_block infile j ;; ret (2 * b)
              else ret block_i) ;;
  existing <- read_block outfile (i + j) ;;
  let block_prod := block_i * block_j + carry + existing in
  let product := Z.land block_prod BLOCK_MASK in
  let carry := Z.shiftr block_prod (CHUNK_SIZE * 8) in
  write_block outfile (i + j) product ;;
  ret carry.

Definition square_row (fuel : nat) (infile outfile : nat) (size i : Z) : M unit :=
  block_i <- read_block infile i ;;
  carry <- for_acc (range i size) 0 (square_inner infile outfile i block_i) ;;
  propagate_carry fuel outfile (i + size) carry.

Lemma square_loops fuel input_filename output_filename :
  square fuel input_filename output_filename
  = with_open input_filename RB (fun infile =>
    with_open output_filename WBplus (fun outfile =>
      size <- get_file_size infile ;;
      for_ (range 0 size) (square_row fuel infile outfile size))).
Proof. reflexivity. Qed.

Section SquareLoops.

Context (infile outfile : nat) (inp out : string) (din : list byte).
Hypothesis Hpaths : inp <> out.
Hypothesis Hobjs : infile <> outfile.

Local Abbreviation Ses := (session infile outfile inp out din).
Local Abbreviation St := (steps out).
Local Abbreviation V := from_bytes_little.
Local Abbreviation size := (Z.of_nat (length din)).

(** The trailing [while] loop: starting at block [k] with carry [carry], it
    brings the result to the value [T] it owed, provided [T] fits in [B]
    blocks and [fuel] covers the blocks from [k] to [B]; it makes [t] reads
    and [t] writes, all below block [B]. *)
Lemma propagate_carry_runs (B T : Z) (fuel : nat) :
  forall k carry w dout,
    Ses w dout -> 0 <= k -> 0 <= carry ->
    V dout + carry * 256 ^ k = T -> T < 256 ^ B -> B - k <= Z.of_nat fuel ->
    exists w' dout' t tr,
      runs (propagate_carry fuel outfile k carry) w tt w'
      /\ Ses w' dout' /\ St w w' dout' t t tr /\ 0 <= t <= 0 `max` (B - k)
      /\ V dout' = T
      /\ writes_within out B tr
      /\ Z.of_nat (length dout) <= Z.of_nat (length dout')
           <= Z.of_nat (length dout) `max` B.
Proof.
  assert (Hstop : forall w dout carry k,
            Ses w dout -> 0 <= carry -> (carry >? 0) = false ->
            V dout + carry * 256 ^ k = T ->
            exists w' dout' t tr,
              runs (ret tt) w tt w'
              /\ Ses w' dout' /\ St w w' dout' t t tr /\ 0 <= t <= 0 `max` (B - k)
              /\ V dout' = T
              /\ writes_within out B tr
              /\ Z.of_nat (length dout) <= Z.of_nat (length dout')
           <= Z.of_nat (length dout) `max` B).
  { intros w dout carry k Hses Hc E HT.
    exists w, dout, 0, []. split; [apply runs_ret|].
    split; [done|]. split; [by eapply steps_refl|]. split; [lia|].
    split; [|split; [by constructor | lia]].
    assert (carry = 0) as -> by lia. lia. }
  assert (Hbelow : forall dout carry k,
            0 <= k -> (carry >? 0) = true ->
            V dout + carry * 256 ^ k = T -> T < 256 ^ B -> k < B).
  { intros dout carry k Hk E HT HB.
    pose proof (from_bytes_little_nonneg dout).
    assert (0 < 256 ^ k) by (apply Z.pow_pos_nonneg; lia).
    assert (256 ^ k < 256 ^ B) by nia.
    destruct (decide (0 <= B)) as [HB0|HB0].
    - apply (Z.pow_lt_mono_r_iff 256); [lia | done | done].
    - rewrite Z.pow_neg_r in HB by lia. nia. }
  induction fuel as [|fuel IH]; intros k carry w dout Hses Hk Hc HT HB Hfuel.
  - destruct (carry >? 0) eqn:E.
    + pose proof (Hbelow dout carry k Hk E HT HB). lia.
    + cbn [propagate_carry]. rewrite E. by eapply Hstop.
  - destruct (carry >? 0) eqn:E; cbn [propagate_carry]; rewrite E;
      [|by eapply Hstop].
    pose proof (Hbelow dout carry k Hk E HT HB) as HkB.
    destruct (accumulate infile outfile inp out din Hpaths Hobjs w dout k carry
                Hses Hk Hc)
      as (w1 & w2 & dout1 & Hr1 & Hr2 & Hs2 & Hst2 & Hval & Hc1 & Hlen).
    destruct (IH (k + 1) ((carry + blk dout k) / 256) w2 dout1)
      as (w3 & dout3 & t & tr & Hr3 & Hs3 & Hst3 & Ht & Hv3 & Hw3 & Hl3);
      [done | lia | done | lia | done | lia |].
    exists w3, dout3, (1 + t), ([EvRead out k; EvWrite out k 1] ++ tr).
    split.
    { eapply runs_bind; [exact Hr1|]. cbv zeta.
      rewrite land_block_mask, shiftr_chunk.
      replace (blk dout k + carry) with (carry + blk dout k) by lia.
      eapply runs_bind; [exact Hr2 | exact Hr3]. }
    split; [done|]. split.
    { eapply steps_trans; [exact Hst2 | exact Hst3]. }
    split; [lia|]. split; [done|]. split; [|lia].
    apply writes_within_app; [|done].
    repeat constructor; lia.
Qed.

(** In row [i], before column [j] is processed, the columns still to come
    owe the result [block_i * 256^(i+j) * row_rest i j]: the diagonal term
    once and every later column twice. *)
Definition row_rest (i j : Z) : Z :=
  if j =? i then blk din i + 512 * tailv din (i + 1) else 2 * tailv din j.

Lemma row_rest_step i j :
  0 <= i <= j ->
  row_rest i j
  = (if negb (i =? j) then 2 * blk din j else blk din i) + 256 * row_rest i (j + 1).
Proof.
  intros Hij. unfold row_rest.
  destruct (j + 1 =? i) eqn:E1; [lia|].
  destruct (Z.eqb_spec j i) as [->|Hne].
  - rewrite Z.eqb_refl. cbn [negb]. lia.
  - destruct (Z.eqb_spec i j) as [->|_]; [done|]. cbn [negb].
    rewrite (tailv_step din j) by lia. lia.
Qed.

Lemma row_rest_end i : i < size -> row_rest i size = 0.
Proof.
  intros Hi. unfold row_rest. destruct (Z.eqb_spec size i); [lia|].
  rewrite tailv_end by lia. lia.
Qed.

(** Reads made by the inner loop of row [i] before column [j]. *)
Definition inner_reads (i j : Z) : Z := if j =? i then 0 else 2 * (j - i) - 1.

(** The inner loop of row [i]: it adds the whole row into the result, up to
    the carry out of its last column. *)
Lemma square_inner_runs (i : Z) (w : World) (dout : list byte) :
  Ses w dout -> 0 <= i < size ->
  exists w' dout' carry tr,
    runs (for_acc (range i size) 0 (square_inner infile outfile i (blk din i)))
      w carry w'
    /\ Ses w' dout'
    /\ St w w' dout' (2 * (size - i) - 1) (size - i) tr
    /\ 0 <= carry
    /\ V dout' + carry * 256 ^ (i + size)
       = V dout + blk din i * 256 ^ (2 * i) * (blk din i + 512 * tailv din (i + 1))
    /\ writes_within out (i + size) tr
    /\ i + size <= Z.of_nat (length dout') <= Z.of_nat (length dout) `max` (i + size).
Proof.
  intros Hses Hi.
  set (a := blk din i).
  set (C := V dout + a * 256 ^ (2 * i) * (a + 512 * tailv din (i + 1))).
  pose (I := fun (j carry : Z) (w' : World) =>
    exists dout' tr,
      Ses w' dout'
      /\ St w w' dout' (inner_reads i j) (j - i) tr
      /\ 0 <= carry
      /\ V dout' + carry * 256 ^ (i + j) + a * 256 ^ (i + j) * row_rest i j = C
      /\ writes_within out (i + size) tr
      /\ (i < j -> i + j <= Z.of_nat (length dout'))
      /\ Z.of_nat (length dout') <= Z.of_nat (length dout) `max` (i + j)).
  destruct (for_acc_range I (square_inner infile outfile i a) i size) with (s := 0) (w := w)
    as (carry & w' & Hrun & dout' & tr & Hs' & Hst' & Hc' & Hv' & Hw' & Hl').
  - lia.
  - (* one column *)
    intros j carry w1 Hj (dout1 & tr1 & Hs1 & Hst1 & Hc1 & Hv1 & Hw1 & Hl1).
    pose proof (blk_range din i) as Ha. pose proof (blk_range din j) as Hbj.
    fold a in Ha.
    set (b := if negb (i =? j) then 2 * blk din j else a).
    assert (exists w2 rb trb,
               runs (if negb (i =? j)
                     then x <- read_block infile j ;; ret (2 * x)
                     else ret a) w1 b w2
               /\ Ses w2 dout1 /\ St w1 w2 dout1 rb 0 trb
               /\ rb = (if negb (i =? j) then 1 else 0)
               /\ writes_within out (i + size) trb)
      as (w2 & rb & trb & Hrb & Hs2 & Hst2 & Hrb_eq & Hwb).
    { unfold b. destruct (negb (i =? j)).
      - destruct (ses_read_in infile outfile inp out din Hobjs w1 dout1 j Hs1)
          as (w2 & Hr & Hs2 & Hst2); [lia|].
        exists w2, 1, [EvRead inp j]. split.
        { eapply runs_bind; [exact Hr | apply runs_ret]. }
        split; [done|]. split; [done|]. split; [done|]. by repeat constructor.
      - exists w1, 0, []. split; [apply runs_ret|].
        split; [done|]. split; [by eapply steps_refl|]. split; [done|].
        by constructor. }
    assert (0 <= b) as Hb by (unfold b; destruct (negb (i =? j)); lia).
    destruct (accumulate infile outfile inp out din Hpaths Hobjs w2 dout1 (i + j)
                (a * b + carry) Hs2)
      as (w3 & w4 & dout4 & Hr3 & Hr4 & Hs4 & Hst4 & Hval & Hc4 & Hlen); [lia | nia |].
    exists ((a * b + carry + blk dout1 (i + j)) / 256), w4. split.
    { unfold square_inner. eapply runs_bind; [exact Hrb|].
      eapply runs_bind; [exact Hr3|]. cbv zeta.
      rewrite land_block_mask, shiftr_chunk.
      eapply runs_bind; [exact Hr4 | apply runs_ret]. }
    exists dout4, (tr1 ++ trb ++ [EvRead out (i + j); EvWrite out (i + j) 1]).
    split; [done|]. split.
    { pose proof (steps_trans _ _ _ _ _ _ _ _ _ _ _ _
                    (steps_trans _ _ _ _ _ _ _ _ _ _ _ _ Hst1 Hst2) Hst4) as H.
      rewrite <- app_assoc in H.
      replace (inner_reads i (j + 1)) with (inner_reads i j + rb + 1);
        [replace (j + 1 - i) with (j - i + 0 + 1) by lia; exact H|].
      subst rb. unfold inner_reads.
      destruct (Z.eqb_spec j i) as [->|Hne].
      - rewrite Z.eqb_refl. cbn [negb]. destruct (Z.eqb_spec (i + 1) i); lia.
      - destruct (Z.eqb_spec i j); [lia|]. cbn [negb].
        destruct (Z.eqb_spec (j + 1) i); lia. }
    split; [done|]. split.
    { rewrite (row_rest_step i j) in Hv1 by lia. fold a in Hv1. fold b in Hv1.
      replace (i + (j + 1)) with (i + j + 1) by lia.
      rewrite Z.pow_add_r in Hval |- * by lia. change (256 ^ 1) with 256 in *.
      nia. }
    split.
    { apply writes_within_app; [done|]. apply writes_within_app; [done|].
      repeat constructor; lia. }
    lia.
  - (* on entry *)
    exists dout, []. split; [done|]. split.
    { unfold inner_reads. rewrite Z.eqb_refl. rewrite Z.sub_diag.
      by eapply steps_refl. }
    split; [lia|]. split.
    { unfold row_rest. rewrite Z.eqb_refl. fold a. unfold C.
      replace (i + i) with (2 * i) by lia. ring. }
    split; [by constructor | lia].
  - (* on exit *)
    exists w', dout', carry, tr. split; [exact Hrun|]. split; [done|]. split.
    { unfold inner_reads in Hst'. destruct (Z.eqb_spec size i); [lia|]. exact Hst'. }
    split; [done|]. split; [|split; [done | lia]].
    rewrite row_rest_end in Hv' by lia. unfold C in Hv'. lia.
Qed.

(** One row of the outer loop.  Before row [i] the result holds the square of
    the operand less the square of its blocks from [i] upwards; after it, less
    the square of its blocks from [i + 1] upwards.  The row makes
    [2 * (size - i)] reads and [size - i] writes, and [t] more of each in the
    trailing carry loop. *)
Lemma square_row_runs (fuel : nat) (i : Z) (w : World) (dout : list byte) :
  Ses w dout -> 0 <= i < size -> size <= Z.of_nat fuel ->
  V dout + 256 ^ (2 * i) * (tailv din i * tailv din i) = V din * V din ->
  Z.of_nat (length dout) <= 2 * size ->
  exists w' dout' t tr,
    runs (square_row fuel infile outfile size i) w tt w'
    /\ Ses w' dout'
    /\ St w w' dout' (2 * (size - i) + t) (size - i + t) tr
    /\ 0 <= t <= size - i
    /\ V dout' + 256 ^ (2 * (i + 1)) * (tailv din (i + 1) * tailv din (i + 1))
       = V din * V din
    /\ writes_within out (2 * size) tr
    /\ i + size <= Z.of_nat (length dout') <= 2 * size.
Proof.
  intros Hses Hi Hfuel Hinv Hlen.
  destruct (ses_read_in infile outfile inp out din Hobjs w dout i Hses)
    as (w1 & Hr1 & Hs1 & Hst1); [lia|].
  destruct (square_inner_runs i w1 dout Hs1 Hi)
    as (w2 & dout2 & carry & tr2 & Hr2 & Hs2 & Hst2 & Hc2 & Hv2 & Hw2 & Hl2).
  pose proof (blk_range din i) as Ha.
  pose proof (tailv_nonneg din (i + 1)) as Ht1.
  pose proof (from_bytes_little_nonneg dout) as Hd.
  assert (0 < 256 ^ (2 * i)) as Hp by (apply Z.pow_pos_nonneg; lia).
  rewrite (tailv_step din i) in Hinv by lia.
  assert (256 ^ (2 * (i + 1)) = 256 ^ (2 * i) * 65536) as Hp1.
  { replace (2 * (i + 1)) with (2 * i + 2) by lia. by rewrite Z.pow_add_r by lia. }
  destruct (propagate_carry_runs (2 * size) (V dout2 + carry * 256 ^ (i + size)) fuel
              (i + size) carry w2 dout2)
    as (w3 & dout3 & t & tr3 & Hr3 & Hs3 & Hst3 & Ht & Hv3 & Hw3 & Hl3);
    [done | lia | done | done | | lia |].
  { pose proof (operand_square_bound din). nia. }
  exists w3, dout3, t, ([EvRead inp i] ++ tr2 ++ tr3).
  split.
  { unfold square_row. eapply runs_bind; [exact Hr1|].
    eapply runs_bind; [exact Hr2 | exact Hr3]. }
  split; [done|]. split.
  { pose proof (steps_trans _ _ _ _ _ _ _ _ _ _ _ _ Hst1
                  (steps_trans _ _ _ _ _ _ _ _ _ _ _ _ Hst2 Hst3)) as H.
    replace (2 * (size - i) + t) with (1 + (2 * (size - i) - 1 + t)) by lia.
    replace (size - i + t) with (0 + (size - i + t)) by lia. exact H. }
  split; [lia|]. split; [nia|]. split; [|lia].
  apply writes_within_app; [by repeat constructor|].
  apply writes_within_app; [|done].
  eapply writes_within_mono; [|exact Hw2]. lia.
Qed.

(** The outer loop on an empty result file: the result becomes the square of
    the operand, within [2 * size] blocks, for [size * (size + 1)] reads and
    half as many writes, plus [T] of each for carry propagation. *)
Lemma square_rows_runs (fuel : nat) (w : World) :
  Ses w [] -> size <= Z.of_nat fuel ->
  exists w' dout' T tr,
    runs (for_ (range 0 size) (square_row fuel infile outfile size)) w tt w'
    /\ Ses w' dout'
    /\ St w w' dout' (size * (size + 1) + T) (size * (size + 1) / 2 + T) tr
    /\ 0 <= T <= size * (size + 1) / 2
    /\ V dout' = V din * V din
    /\ writes_within out (2 * size) tr
    /\ Z.of_nat (length dout') <= 2 * size
    /\ (0 < size -> 2 * size - 1 <= Z.of_nat (length dout')).
Proof.
  intros Hses Hfuel.
  pose (I := fun (i : Z) (w' : World) =>
    exists dout' T wb tr,
      Ses w' dout'
      /\ St w w' dout' (i * (2 * size - i + 1) + T) (wb + T) tr
      /\ 2 * wb = i * (2 * size - i + 1)
      /\ 0 <= T <= wb
      /\ V dout' + 256 ^ (2 * i) * (tailv din i * tailv din i) = V din * V din
      /\ writes_within out (2 * size) tr
      /\ Z.of_nat (length dout') <= 2 * size
      /\ (0 < i -> i - 1 + size <= Z.of_nat (length dout'))).
  destruct (for_range I (square_row fuel infile outfile size) 0 size) with (w := w)
    as (w' & Hrun & dout' & T & wb & tr & Hs' & Hst' & Hwb & HT & Hv' & Hw' & Hl').
  - lia.
  - intros i w1 Hi (dout1 & T1 & wb1 & tr1 & Hs1 & Hst1 & Hwb1 & HT1 & Hv1 & Hw1 & Hl1).
    destruct (square_row_runs fuel i w1 dout1 Hs1)
      as (w2 & dout2 & t & tr2 & Hr2 & Hs2 & Hst2 & Ht & Hv2 & Hw2 & Hl2);
      [lia | done | done | lia |].
    exists w2. split; [exact Hr2|].
    exists dout2, (T1 + t), (wb1 + (size - i)), (tr1 ++ tr2).
    split; [done|]. split.
    { pose proof (steps_trans _ _ _ _ _ _ _ _ _ _ _ _ Hst1 Hst2) as H.
      replace ((i + 1) * (2 * size - (i + 1) + 1) + (T1 + t))
        with (i * (2 * size - i + 1) + T1 + (2 * (size - i) + t)) by lia.
      replace (wb1 + (size - i) + (T1 + t)) with (wb1 + T1 + (size - i + t)) by lia.
      exact H. }
    split; [lia|]. split; [lia|]. split; [done|].
    split; [by apply writes_within_app | lia].
  - exists [], 0, 0, []. split; [done|]. split.
    { rewrite Z.mul_0_l. by eapply steps_refl. }
    split; [lia|]. split; [lia|]. split.
    { rewrite tailv_0. cbn. lia. }
    split; [by constructor | cbn; lia].
  - assert (size * (size + 1) / 2 = wb) as Hhalf.
    { replace (size * (size + 1)) with (size * (2 * size - size + 1)) by lia.
      rewrite <- Hwb. by rewrite Z.mul_comm, Z.div_mul by lia. }
    exists w', dout', T, tr. split; [exact Hrun|]. split; [done|].
    rewrite Hhalf. split.
    { replace (size * (size + 1)) with (size * (2 * size - size + 1)) by lia. done. }
    split; [done|]. split; [|split; [done | lia]].
    rewrite tailv_end in Hv' by lia. lia.
Qed.

Lemma ses_size (w : World) (dout : list byte) :
  Ses w dout ->
  exists w', runs (get_file_size infile) w size w'
    /\ Ses w' dout /\ St w w' dout 0 0 [].
Proof.
  intros [[p Hin] [q Hout] Hdin Hdout].
  pose proof (get_file_size_runs w infile _ din Hin eq_refl Hdin) as Hrun.
  eexists. split; [exact Hrun|]. split.
  - split; cbn.
    + eexists. apply list_lookup_insert_eq. by eapply lookup_lt_Some.
    + exists q. by rewrite list_lookup_insert_ne.
    + done.
    + done.
  - split; cbn; [by rewrite insert_id | lia | lia | done | by rewrite app_nil_r].
Qed.

End SquareLoops.

(** ** [square] as a whole *)

Lemma close_fields (file : nat) (w : World) :
  fs (close file w) = fs w /\ reads (close file w) = reads w
  /\ writes (close file w) = writes w /\ stdout (close file w) = stdout w
  /\ trace (close file w) = trace w.
Proof. unfold close. by destruct (objs w !! file). Qed.

(** Running [square] on an existing operand file [inp] and a different result
    path [out], with fuel for at least [size] carry steps, with all that the
    loops establish. *)
Lemma square_runs_length (fuel : nat) (inp out : string) (w : World) (din : list byte) :
  fs w !! inp = Some din ->
  inp <> out ->
  Z.of_nat (length din) <= Z.of_nat fuel ->
  let size := Z.of_nat (length din) in
  exists w' dout T tr,
    runs (square fuel inp out) w tt w'
    /\ fs w' = <[out := dout]> (fs w)
    /\ reads w' = reads w + (size * (size + 1) + T)
    /\ writes w' = writes w + (size * (size + 1) / 2 + T)
    /\ 0 <= T <= size * (size + 1) / 2
    /\ stdout w' = stdout w
    /\ trace w' = trace w ++ tr
    /\ writes_within out (2 * size) tr
    /\ from_bytes_little dout = from_bytes_little din * from_bytes_little din
    /\ Z.of_nat (length dout) <= 2 * size
    /\ (0 < size -> 2 * size - 1 <= Z.of_nat (length dout)).
Proof.
  intros Hdin Hne Hfuel size.
  set (infile := length (objs w)).
  set (outfile := length (objs w ++ [PyFile inp RB 0 false])).
  assert (outfile = S infile) as Hout
    by (unfold outfile, infile; rewrite length_app; cbn; lia).
  set (w2 := set_fs
               (set_objs w ((objs w ++ [PyFile inp RB 0 false])
                              ++ [PyFile out WBplus 0 false]))
               (<[out := []]> (fs w))).
  assert (session infile outfile inp out din w2 []) as Hses.
  { split; cbn.
    - exists 0. rewrite lookup_app_l by (rewrite length_app; cbn; lia).
      by rewrite lookup_app_r, Nat.sub_diag by lia.
    - exists 0. by rewrite lookup_app_r, Nat.sub_diag by (fold outfile; lia).
    - by rewrite lookup_insert_ne.
    - by rewrite lookup_insert_eq. }
  assert (infile <> outfile) as Hobjs by lia.
  destruct (ses_size infile outfile inp out din Hobjs w2 [] Hses)
    as (w3 & Hr3 & Hs3 & Hst3).
  destruct (square_rows_runs infile outfile inp out din Hne Hobjs fuel w3 Hs3 Hfuel)
    as (w4 & dout & T & tr & Hr4 & Hs4 & Hst4 & HT & Hv & Hw & Hl).
  pose proof (steps_trans _ _ _ _ _ _ _ _ _ _ _ _ Hst3 Hst4) as [Hf Hrd Hwr Hso Htr].
  pose proof (close_fields outfile w4) as (Hc1 & Hc2 & Hc3 & Hc4 & Hc5).
  pose proof (close_fields infile (close outfile w4)) as (Hd1 & Hd2 & Hd3 & Hd4 & Hd5).
  exists (close infile (close outfile w4)), dout, T, tr.
  split.
  { rewrite square_loops. unfold with_open.
    eapply runs_bind.
    { unfold runs, open. by rewrite Hdin. }
    apply runs_finally.
    eapply runs_bind.
    { unfold runs, open. cbn. reflexivity. }
    apply runs_finally.
    eapply runs_bind; [exact Hr3 | exact Hr4]. }
  rewrite Hd1, Hd2, Hd3, Hd4, Hd5, Hc1, Hc2, Hc3, Hc4, Hc5.
  split; [rewrite Hf; cbn; by rewrite insert_insert_eq|].
  split; [rewrite Hrd; cbn; fold size; lia|].
  split; [rewrite Hwr; cbn; fold size; lia|].
  split; [done|]. split; [by rewrite Hso|]. split; [by rewrite Htr|].
  done.
Qed.

(** Running [square] on an existing operand file [inp] and a different result
    path [out], with fuel for at least [size] carry steps: it returns, the
    result file holds [dout] and nothing else in the file system changed. *)
Lemma square_runs (fuel : nat) (inp out : string) (w : World) (din : list byte) :
  fs w !! inp = Some din ->
  inp <> out ->
  Z.of_nat (length din) <= Z.of_nat fuel ->
  let size := Z.of_nat (length din) in
  exists w' dout T tr,
    runs (square fuel inp out) w tt w'
    /\ fs w' = <[out := dout]> (fs w)
    /\ reads w' = reads w + (size * (size + 1) + T)
    /\ writes w' = writes w + (size * (size + 1) / 2 + T)
    /\ 0 <= T <= size * (size + 1) / 2
    /\ stdout w' = stdout w
    /\ trace w' = trace w ++ tr
    /\ writes_within out (2 * size) tr
    /\ from_bytes_little dout = from_bytes_little din * from_bytes_little din
    /\ Z.of_nat (length dout) <= 2 * size.
Proof.
  intros Hdin Hne Hfuel size.
  destruct (square_runs_length fuel inp out w din Hdin Hne Hfuel)
    as (w' & dout & T & tr & H1 & H2 & H3 & H4 & H5 & H6 & H7 & H8 & H9 & H10 & _).
  by exists w', dout, T, tr.
Qed.

(** ** The codec *)

Lemma shiftl_block (b i : Z) :
  0 <= i -> Z.shiftl b (CHUNK_SIZE * 8 * i) = 256 ^ i * b.
Proof.
  intros Hi. change (CHUNK_SIZE * 8) with 8.
  rewrite Z.shiftl_mul_pow2 by lia. rewrite Z.pow_mul_r by lia.
  change (2 ^ 8) with 256. lia.
Qed.

(** [file_to_num] returns the little-endian value of the file; it counts one
    read per block and changes no file. *)
Lemma file_to_num_runs (filename : string) (w : World) (data : list byte) :
  fs w !! filename = Some data ->
  exists w',
    runs (file_to_num filename) w (from_bytes_little data) w'
    /\ fs w' = fs w
    /\ reads w' = reads w + Z.of_nat (length data)
    /\ writes w' = writes w
    /\ stdout w' = stdout w.
Proof.
  intros Hdata.
  set (f := length (objs w)).
  set (w1 := set_objs w (objs w ++ [PyFile filename RB 0 false])).
  assert (objs w1 !! f = Some (PyFile filename RB 0 false)) as Hf
    by (cbn; by rewrite lookup_app_r, Nat.sub_diag by (fold f; lia)).
  pose proof (get_file_size_runs w1 f _ data Hf eq_refl Hdata) as Hsize.
  set (w2 := set_objs w1 _) in Hsize.
  pose (I := fun (i res : Z) (w' : World) =>
    (exists p, objs w' !! f = Some (PyFile filename RB p false))
    /\ fs w' = fs w /\ reads w' = reads w + i /\ writes w' = writes w
    /\ stdout w' = stdout w
    /\ res = from_bytes_little (take (Z.to_nat i) data)).
  destruct (for_acc_range I
              (fun res i => b <- read_block f i ;;
                            ret (res + Z.shiftl b (CHUNK_SIZE * 8 * i)))
              0 (Z.of_nat (length data))) with (s := 0) (w := w2)
    as (res & w3 & Hrun & _ & Hfs & Hrd & Hwr & Hso & Hres).
  - lia.
  - intros i res w' Hi ([p Hp] & Hfs & Hrd & Hwr & Hso & Hres).
    destruct (read_block_runs w' f _ data Hp eq_refl) with (pos := i) as [p' Hrun];
      [cbn; by rewrite Hfs | done | lia |].
    eexists _, _. split.
    { eapply runs_bind; [exact Hrun | apply runs_ret]. }
    split; cbn.
    { eexists. apply list_lookup_insert_eq. by eapply lookup_lt_Some. }
    split; [done|]. split; [lia|]. split; [done|]. split; [done|].
    replace (Z.to_nat (i + 1)) with (S (Z.to_nat i)) by lia.
    rewrite from_bytes_little_take_S, shiftl_block by lia.
    rewrite Z2Nat.id by lia. subst res. unfold blk. reflexivity.
  - split; cbn.
    { eexists. apply list_lookup_insert_eq. by eapply lookup_lt_Some. }
    split; [done|]. split; [lia|]. done.
  - pose proof (close_fields f w3) as (Hc1 & Hc2 & Hc3 & Hc4 & Hc5).
    exists (close f w3). split.
    { unfold file_to_num, with_open.
      eapply runs_bind; [unfold runs, open; by rewrite Hdata|].
      apply runs_finally.
      eapply runs_bind; [exact Hsize|].
      rewrite Nat2Z.id, firstn_all in Hres. subst res. exact Hrun. }
    rewrite Hc1, Hc2, Hc3, Hc4. done.
Qed.

(** The bytes [num_to_file] writes for [n]: the base-256 digits of [n], least
    significant first, none for zero. *)
Fixpoint digits (fuel : nat) (n : Z) : list byte :=
  if n =? 0 then []
  else
    match fuel with
    | O => []
    | S fuel' => byte_of_Z (n mod 256) :: digits fuel' (n / 256)
    end.

Lemma digits_value (fuel : nat) (n : Z) :
  0 <= n < 256 ^ Z.of_nat fuel -> from_bytes_little (digits fuel n) = n.
Proof.
  revert n; induction fuel as [|fuel IH]; intros n Hn.
  - cbn in *. destruct (Z.eqb_spec n 0); [done | lia].
  - cbn [digits]. destruct (Z.eqb_spec n 0) as [->|Hne]; [done|].
    cbn [from_bytes_little].
    rewrite Nat2Z.inj_succ, Z.pow_succ_r in Hn by lia.
    rewrite IH by (split; [apply Z.div_pos; lia | apply Z.div_lt_upper_bound; lia]).
    rewrite byte_val_of_Z by (apply Z.mod_pos_bound; lia).
    pose proof (Z.div_mod n 256 ltac:(lia)). lia.
Qed.

Lemma length_digits (fuel : nat) (n : Z) : (length (digits fuel n) <= fuel)%nat.
Proof.
  revert n; induction fuel as [|fuel IH]; intros n; cbn [digits].
  - destruct (n =? 0); cbn; lia.
  - destruct (n =? 0); cbn; [lia|]. specialize (IH (n / 256)). lia.
Qed.

Lemma write_at_end (data bs : list byte) : write_at data (length data) bs = data ++ bs.
Proof.
  unfold write_at. rewrite firstn_all, Nat.sub_diag. cbn.
  rewrite drop_ge by lia. by rewrite app_nil_r.
Qed.

(** The [while n] loop on a file object positioned at the end of its file
    appends the digits of [n]. *)
Lemma num_to_file_loop_runs (fuel : nat) (f : nat) (name : string) :
  forall (n : Z) (w : World) (data : list byte),
    objs w !! f = Some (PyFile name WB (Z.of_nat (length data)) false) ->
    fs w !! name = Some data ->
    0 <= n < 256 ^ Z.of_nat fuel ->
    exists w',
      runs (num_to_file_loop fuel f n) w tt w'
      /\ fs w' = <[name := data ++ digits fuel n]> (fs w)
      /\ reads w' = reads w /\ writes w' = writes w /\ stdout w' = stdout w.
Proof.
  induction fuel as [|fuel IH]; intros n w data Hf Hdata Hn.
  - cbn in Hn. assert (n = 0) as -> by lia. cbn.
    exists w. split; [apply runs_ret|].
    by rewrite app_nil_r, insert_id.
  - cbn [num_to_file_loop digits]. destruct (Z.eqb_spec n 0) as [->|Hne].
    { exists w. split; [apply runs_ret|]. by rewrite app_nil_r, insert_id. }
    rewrite Nat2Z.inj_succ, Z.pow_succ_r in Hn by lia.
    assert (0 <= n mod 256 < 256) as Hm by (apply Z.mod_pos_bound; lia).
    pose proof (write_runs w f _ Hf eq_refl data [byte_of_Z (n mod 256)] eq_refl Hdata)
      as Hw.
    cbn [f_name f_mode f_pos length] in Hw.
    rewrite Nat2Z.id, write_at_end in Hw.
    set (w1 := set_trace _ _) in Hw.
    destruct (IH (n / 256) w1 (data ++ [byte_of_Z (n mod 256)]))
      as (w2 & Hrun & Hfs & Hrd & Hwr & Hso).
    { cbn. rewrite length_app. cbn [length].
      replace (Z.of_nat (length data + 1)) with (Z.of_nat (length data) + Z.of_nat 1) by lia.
      apply list_lookup_insert_eq. by eapply lookup_lt_Some. }
    { cbn. by rewrite lookup_insert_eq. }
    { split; [apply Z.div_pos; lia | apply Z.div_lt_upper_bound; lia]. }
    exists w2. split.
    { eapply runs_bind.
      { unfold runs, lift. rewrite land_block_mask. by rewrite to_bytes_little_block. }
      eapply runs_bind; [exact Hw|].
      rewrite shiftr_chunk. exact Hrun. }
    rewrite Hfs, Hrd, Hwr, Hso. cbn.
    by rewrite insert_insert_eq, <- app_assoc.
Qed.

(** [num_to_file] leaves exactly the digits of [n] in the file. *)
Lemma num_to_file_runs (fuel : nat) (n : Z) (filename : string) (w : World) :
  0 <= n < 256 ^ Z.of_nat fuel ->
  exists w',
    runs (num_to_file fuel n filename) w tt w'
    /\ fs w' = <[filename := digits fuel n]> (fs w)
    /\ reads w' = reads w /\ writes w' = writes w /\ stdout w' = stdout w.
Proof.
  intros Hn.
  set (f := length (objs w)).
  set (w1 := set_fs (set_objs w (objs w ++ [PyFile filename WB 0 false]))
               (<[filename := []]> (fs w))).
  destruct (num_to_file_loop_runs fuel f filename n w1 [])
    as (w2 & Hrun & Hfs & Hrd & Hwr & Hso).
  { cbn. by rewrite lookup_app_r, Nat.sub_diag by (fold f; lia). }
  { cbn. by rewrite lookup_insert_eq. }
  { done. }
  pose proof (close_fields f w2) as (Hc1 & Hc2 & Hc3 & Hc4 & Hc5).
  exists (close f w2). split.
  { unfold num_to_file, with_open.
    eapply runs_bind; [reflexivity|].
    apply runs_finally. exact Hrun. }
  rewrite Hc1, Hc2, Hc3, Hc4, Hfs, Hrd, Hwr, Hso. cbn.
  by rewrite insert_insert_eq.
Qed.

(** ** The full schoolbook variant *)

(** The cross-check oracle of the specification: [square] with the doubling
    removed and the inner loop run over every column, [j] from [0] to
    [size - 1], for every row [i].  Everything else is as in [square]. *)
Definition full_inner (infile outfile : nat) (i block_i : Z) (carry j : Z) : M Z :=
  block_j <- (if negb (i =? j)
              then read_block infile j
              else ret block_i) ;;
  existing <- read_block outfile (i + j) ;;
  let block_prod := block_i * block_j + carry + existing in
  let product := Z.land block_prod BLOCK_MASK in
  let carry := Z.shiftr block_prod (CHUNK_SIZE * 8) in
  write_block outfile (i + j) product ;;
  ret carry.

Definition full_row (fuel : nat) (infile outfile : nat) (size i : Z) : M unit :=
  block_i <- read_block infile i ;;
  carry <- for_acc (range 0 size) 0 (full_inner infile outfile i block_i) ;;
  propagate_carry fuel outfile (i + size) carry.

Definition square_full_schoolbook (fuel : nat)
    (input_filename output_filename : string) : M unit :=
  with_open input_filename RB (fun infile =>
  with_open output_filename WBplus (fun outfile =>
    size <- get_file_size infile ;;
    for_ (range 0 size) (full_row fuel infile outfile size))).

(** The value of the blocks of a store below index [k]. *)
Definition headv (data : list byte) (k : Z) : Z :=
  from_bytes_little (take (Z.to_nat k) data).

Lemma headv_0 data : headv data 0 = 0.
Proof. reflexivity. Qed.

Lemma headv_step data k :
  0 <= k -> headv data (k + 1) = headv data k + 256 ^ k * blk data k.
Proof.
  intros Hk. unfold headv, blk.
  replace (Z.to_nat (k + 1)) with (S (Z.to_nat k)) by lia.
  rewrite from_bytes_little_take_S. by rewrite Z2Nat.id.
Qed.

Lemma headv_tailv data k :
  0 <= k -> from_bytes_little data = headv data k + 256 ^ k * tailv data k.
Proof.
  intros Hk. unfold headv, tailv.
  rewrite (from_bytes_little_take_drop data (Z.to_nat k)). by rewrite Z2Nat.id.
Qed.

Lemma headv_nonneg data k : 0 <= headv data k.
Proof. apply from_bytes_little_nonneg. Qed.

Section FullLoops.

Context (infile outfile : nat) (inp out : string) (din : list byte).
Hypothesis Hpaths : inp <> out.
Hypothesis Hobjs : infile <> outfile.

Local Abbreviation Ses := (session infile outfile inp out din).
Local Abbreviation St := (steps out).
Local Abbreviation V := from_bytes_little.
Local Abbreviation size := (Z.of_nat (length din)).

(** The inner loop of row [i] of the full variant adds [block_i * 256^i]
    times the whole operand into the result, up to the carry out of the last
    column. *)
Lemma full_inner_runs (i : Z) (w : World) (dout : list byte) :
  Ses w dout -> 0 <= i < size ->
  exists w' dout' carry r wr tr,
    runs (for_acc (range 0 size) 0 (full_inner infile outfile i (blk din i)))
      w carry w'
    /\ Ses w' dout'
    /\ St w w' dout' r wr tr
    /\ 0 <= carry
    /\ V dout' + carry * 256 ^ (i + size) = V dout + blk din i * 256 ^ i * V din.
Proof.
  intros Hses Hi.
  set (a := blk din i).
  pose (I := fun (j carry : Z) (w' : World) =>
    exists dout' r wr tr,
      Ses w' dout'
      /\ St w w' dout' r wr tr
      /\ 0 <= carry
      /\ V dout' + carry * 256 ^ (i + j) + a * 256 ^ (i + j) * tailv din j
         = V dout + a * 256 ^ i * V din).
  destruct (for_acc_range I (full_inner infile outfile i a) 0 size) with (s := 0) (w := w)
    as (carry & w' & Hrun & dout' & r & wr & tr & Hs' & Hst' & Hc' & Hv').
  - lia.
  - intros j carry w1 Hj (dout1 & r1 & wr1 & tr1 & Hs1 & Hst1 & Hc1 & Hv1).
    pose proof (blk_range din i) as Ha. pose proof (blk_range din j) as Hbj.
    fold a in Ha.
    assert (exists w2 rb trb,
               runs (if negb (i =? j) then read_block infile j else ret a)
                 w1 (blk din j) w2
               /\ Ses w2 dout1 /\ St w1 w2 dout1 rb 0 trb)
      as (w2 & rb & trb & Hrb & Hs2 & Hst2).
    { destruct (Z.eqb_spec i j) as [<-|Hne]; cbn [negb].
      - exists w1, 0, []. split; [apply runs_ret|].
        split; [done | by eapply steps_refl].
      - destruct (ses_read_in infile outfile inp out din Hobjs w1 dout1 j Hs1)
          as (w2 & Hr & Hs2 & Hst2); [lia|].
        by exists w2, 1, [EvRead inp j]. }
    destruct (accumulate infile outfile inp out din Hpaths Hobjs w2 dout1 (i + j)
                (a * blk din j + carry) Hs2)
      as (w3 & w4 & dout4 & Hr3 & Hr4 & Hs4 & Hst4 & Hval & Hc4 & Hlen); [lia | nia |].
    exists ((a * blk din j + carry + blk dout1 (i + j)) / 256), w4. split.
    { unfold full_inner. eapply runs_bind; [exact Hrb|].
      eapply runs_bind; [exact Hr3|]. cbv zeta.
      rewrite land_block_mask, shiftr_chunk.
      eapply runs_bind; [exact Hr4 | apply runs_ret]. }
    eexists dout4, _, _, _. split; [done|]. split.
    { exact (steps_trans _ _ _ _ _ _ _ _ _ _ _ _
               (steps_trans _ _ _ _ _ _ _ _ _ _ _ _ Hst1 Hst2) Hst4). }
    split; [done|].
    rewrite (tailv_step din j) in Hv1 by lia.
    replace (i + (j + 1)) with (i + j + 1) by lia.
    rewrite Z.pow_add_r in Hval |- * by lia. change (256 ^ 1) with 256 in *.
    nia.
  - exists dout, 0, 0, []. split; [done|]. split; [by eapply steps_refl|].
    split; [lia|]. rewrite tailv_0. replace (i + 0) with i by lia. ring.
  - exists w', dout', carry, r, wr, tr. split; [exact Hrun|].
    split; [done|]. split; [done|]. split; [done|].
    rewrite tailv_end in Hv' by lia. fold a. lia.
Qed.

(** One row of the full variant: the result goes from the operand times its
    blocks below [i] to the operand times its blocks below [i + 1]. *)
Lemma full_row_runs (fuel : nat) (i : Z) (w : World) (dout : list byte) :
  Ses w dout -> 0 <= i < size -> size <= Z.of_nat fuel ->
  V dout = V din * headv din i ->
  exists w' dout' r wr tr,
    runs (full_row fuel infile outfile size i) w tt w'
    /\ Ses w' dout'
    /\ St w w' dout' r wr tr
    /\ V dout' = V din * headv din (i + 1).
Proof.
  intros Hses Hi Hfuel Hinv.
  destruct (ses_read_in infile outfile inp out din Hobjs w dout i Hses)
    as (w1 & Hr1 & Hs1 & Hst1); [lia|].
  destruct (full_inner_runs i w1 dout Hs1 Hi)
    as (w2 & dout2 & carry & r2 & wr2 & tr2 & Hr2 & Hs2 & Hst2 & Hc2 & Hv2).
  pose proof (blk_range din i) as Ha.
  pose proof (headv_nonneg din (i + 1)) as Hh.
  pose proof (tailv_nonneg din (i + 1)) as Ht.
  pose proof (headv_tailv din (i + 1) ltac:(lia)) as Hsplit.
  pose proof (from_bytes_little_nonneg din) as Hn.
  assert (0 < 256 ^ (i + 1)) as Hp by (apply Z.pow_pos_nonneg; lia).
  destruct (propagate_carry_runs infile outfile inp out din Hpaths Hobjs
              (2 * size) (V dout2 + carry * 256 ^ (i + size)) fuel
              (i + size) carry w2 dout2)
    as (w3 & dout3 & t & tr3 & Hr3 & Hs3 & Hst3 & Ht3 & Hv3 & Hw3 & Hl3);
    [done | lia | done | done | | lia |].
  { pose proof (operand_square_bound din).
    rewrite Hv2, Hinv. rewrite (headv_step din i) in Hsplit, Hh by lia. nia. }
  eexists w3, dout3, _, _, _.
  split.
  { unfold full_row. eapply runs_bind; [exact Hr1|].
    eapply runs_bind; [exact Hr2 | exact Hr3]. }
  split; [done|]. split.
  { exact (steps_trans _ _ _ _ _ _ _ _ _ _ _ _ Hst1
             (steps_trans _ _ _ _ _ _ _ _ _ _ _ _ Hst2 Hst3)). }
  rewrite Hv3, Hv2, Hinv, (headv_step din i) by lia. ring.
Qed.

Lemma full_rows_runs (fuel : nat) (w : World) :
  Ses w [] -> size <= Z.of_nat fuel ->
  exists w' dout' r wr tr,
    runs (for_ (range 0 size) (full_row fuel infile outfile size)) w tt w'
    /\ Ses w' dout'
    /\ St w w' dout' r wr tr
    /\ V dout' = V din * V din.
Proof.
  intros Hses Hfuel.
  pose (I := fun (i : Z) (w' : World) =>
    exists dout' r wr tr,
      Ses w' dout' /\ St w w' dout' r wr tr /\ V dout' = V din * headv din i).
  destruct (for_range I (full_row fuel infile outfile size) 0 size) with (w := w)
    as (w' & Hrun & dout' & r & wr & tr & Hs' & Hst' & Hv').
  - lia.
  - intros i w1 Hi (dout1 & r1 & wr1 & tr1 & Hs1 & Hst1 & Hv1).
    destruct (full_row_runs fuel i w1 dout1 Hs1)
      as (w2 & dout2 & r2 & wr2 & tr2 & Hr2 & Hs2 & Hst2 & Hv2);
      [lia | done | done |].
    exists w2. split; [exact Hr2|].
    eexists dout2, _, _, _. split; [done|]. split; [|done].
    exact (steps_trans _ _ _ _ _ _ _ _ _ _ _ _ Hst1 Hst2).
  - exists [], 0, 0, []. split; [done|]. split; [by eapply steps_refl|].
    rewrite headv_0. cbn. lia.
  - exists w', dout', r, wr, tr. split; [exact Hrun|].
    split; [done|]. split; [done|].
    rewrite Hv'. f_equal.
    pose proof (headv_tailv din size ltac:(lia)) as H.
    rewrite tailv_end in H by lia. lia.
Qed.

End FullLoops.

Lemma square_full_schoolbook_runs (fuel : nat) (inp out : string) (w : World)
    (din : list byte) :
  fs w !! inp = Some din ->
  inp <> out ->
  Z.of_nat (length din) <= Z.of_nat fuel ->
  exists w' dout,
    runs (square_full_schoolbook fuel inp out) w tt w'
    /\ fs w' = <[out := dout]> (fs w)
    /\ from_bytes_little dout = from_bytes_little din * from_bytes_little din.
Proof.
  intros Hdin Hne Hfuel.
  set (infile := length (objs w)).
  set (outfile := length (objs w ++ [PyFile inp RB 0 false])).
  assert (outfile = S infile) as Hout
    by (unfold outfile, infile; rewrite length_app; cbn; lia).
  set (w2 := set_fs
               (set_objs w ((objs w ++ [PyFile inp RB 0 false])
                              ++ [PyFile out WBplus 0 false]))
               (<[out := []]> (fs w))).
  assert (session infile outfile inp out din w2 []) as Hses.
  { split; cbn.
    - exists 0. rewrite lookup_app_l by (rewrite length_app; cbn; lia).
      by rewrite lookup_app_r, Nat.sub_diag by lia.
    - exists 0. by rewrite lookup_app_r, Nat.sub_diag by (fold outfile; lia).
    - by rewrite lookup_insert_ne.
    - by rewrite lookup_insert_eq. }
  assert (infile <> outfile) as Hobjs by lia.
  destruct (ses_size infile outfile inp out din Hobjs w2 [] Hses)
    as (w3 & Hr3 & Hs3 & Hst3).
  destruct (full_rows_runs infile outfile inp out din Hne Hobjs fuel w3 Hs3 Hfuel)
    as (w4 & dout & r & wr & tr & Hr4 & Hs4 & Hst4 & Hv).
  pose proof (steps_trans _ _ _ _ _ _ _ _ _ _ _ _ Hst3 Hst4) as [Hf _ _ _ _].
  pose proof (close_fields outfile w4) as (Hc1 & _).
  pose proof (close_fields infile (close outfile w4)) as (Hd1 & _).
  exists (close infile (close outfile w4)), dout.
  split.
  { unfold square_full_schoolbook, with_open.
    eapply runs_bind.
    { unfold runs, open. by rewrite Hdin. }
    apply runs_finally.
    eapply runs_bind.
    { unfold runs, open. cbn. reflexivity. }
    apply runs_finally.
    eapply runs_bind; [exact Hr3 | exact Hr4]. }
  split; [|done].
  rewrite Hd1, Hc1, Hf. cbn. by rewrite insert_insert_eq.
Qed.

(** ** More fuel never changes a result *)

(** [m'] returns whatever [m] returns. *)
Definition extends {A} (m m' : M A) : Prop :=
  forall w a w', runs m w a w' -> runs m' w a w'.

Lemma extends_refl {A} (m : M A) : extends m m.
Proof. by intros w a w'. Qed.

Lemma extends_bind {A B} (m m' : M A) (k k' : A -> M B) :
  extends m m' -> (forall a, extends (k a) (k' a)) ->
  extends (bind m k) (bind m' k').
Proof.
  intros Hm Hk w b w2. unfold runs, bind.
  destruct (m w) as [[a|e] w1] eqn:E; [|done].
  intros Hrun. rewrite (Hm w a w1 E). by apply Hk.
Qed.

Lemma extends_finally {A} (m m' : M A) c :
  extends m m' -> extends (finally m c) (finally m' c).
Proof.
  intros Hm w a w2. unfold runs, finally.
  destruct (m w) as [[a1|e] w1] eqn:E; [|done].
  intros [= -> <-]. by rewrite (Hm w a w1 E).
Qed.

Lemma extends_with_open {A} name md (body body' : nat -> M A) :
  (forall file, extends (body file) (body' file)) ->
  extends (with_open name md body) (with_open name md body').
Proof.
  intros Hb. apply extends_bind; [apply extends_refl|].
  intros file. by apply extends_finally.
Qed.

Lemma extends_for_ {A} (l : list A) (body body' : A -> M unit) :
  (forall x, extends (body x) (body' x)) -> extends (for_ l body) (for_ l body').
Proof.
  intros Hb. induction l as [|x l IH]; [apply extends_refl|].
  cbn [for_]. by apply extends_bind.
Qed.

Lemma propagate_carry_fuel (fuel fuel' : nat) outfile :
  (fuel <= fuel')%nat ->
  forall k carry,
    extends (propagate_carry fuel outfile k carry)
      (propagate_carry fuel' outfile k carry).
Proof.
  revert fuel'; induction fuel as [|fuel IH]; intros fuel' Hle k carry.
  - destruct fuel'; cbn [propagate_carry]; destruct (carry >? 0);
      try apply extends_refl; by intros w a w'.
  - destruct fuel' as [|fuel']; [lia|]. cbn [propagate_carry].
    destruct (carry >? 0); [|apply extends_refl].
    apply extends_bind; [apply extends_refl|]. intros existing.
    apply extends_bind; [apply extends_refl|]. intros _.
    apply IH. lia.
Qed.

Lemma num_to_file_loop_fuel (fuel fuel' : nat) f :
  (fuel <= fuel')%nat ->
  forall n, extends (num_to_file_loop fuel f n) (num_to_file_loop fuel' f n).
Proof.
  revert fuel'; induction fuel as [|fuel IH]; intros fuel' Hle n.
  - destruct fuel'; cbn [num_to_file_loop]; destruct (n =? 0);
      try apply extends_refl; by intros w a w'.
  - destruct fuel' as [|fuel']; [lia|]. cbn [num_to_file_loop].
    destruct (n =? 0); [apply extends_refl|].
    apply extends_bind; [apply extends_refl|]. intros bs.
    apply extends_bind; [apply extends_refl|]. intros _.
    apply IH. lia.
Qed.

Lemma square_fuel (fuel fuel' : nat) inp out :
  (fuel <= fuel')%nat -> extends (square fuel inp out) (square fuel' inp out).
Proof.
  intros Hle. unfold square.
  apply extends_with_open. intros infile.
  apply extends_with_open. intros outfile.
  apply extends_bind; [apply extends_refl|]. intros size.
  apply extends_for_. intros i.
  apply extends_bind; [apply extends_refl|]. intros block_i.
  apply extends_bind; [apply extends_refl|]. intros carry.
  by apply propagate_carry_fuel.
Qed.

Lemma num_to_file_fuel (fuel fuel' : nat) n name :
  (fuel <= fuel')%nat -> extends (num_to_file fuel n name) (num_to_file fuel' n name).
Proof.
  intros Hle. apply extends_with_open. intros f. by apply num_to_file_loop_fuel.
Qed.

Lemma main_fuel (fuel fuel' : nat) :
  (fuel <= fuel')%nat -> extends (main fuel) (main fuel').
Proof.
  intros Hle. unfold main.
  apply extends_bind; [apply extends_refl|]. intros _.
  apply extends_bind; [by apply num_to_file_fuel|]. intros _.
  apply extends_bind; [|intros _; apply extends_refl].
  apply extends_for_. intros i.
  apply extends_bind; [by apply square_fuel|]. intros _.
  apply extends_refl.
Qed.

(** ** Decoding as a sum of shifted blocks *)

(** The sum of [block_i << (8 * CHUNK_SIZE * i)] over the blocks of a store. *)
Definition block_sum (data : list byte) : Z :=
  foldr Z.add 0
    (imap (fun i b => Z.shiftl (byte_val b) (CHUNK_SIZE * 8 * Z.of_nat i)) data).

Lemma block_sum_from (data : list byte) (k : nat) :
  foldr Z.add 0
    (imap (fun i b => Z.shiftl (byte_val b) (CHUNK_SIZE * 8 * Z.of_nat (k + i))) data)
  = 256 ^ Z.of_nat k * from_bytes_little data.
Proof.
  revert k; induction data as [|b data IH]; intros k; [cbn; lia|].
  cbn [imap foldr from_bytes_little].
  rewrite shiftl_block by lia. rewrite Nat.add_0_r.
  rewrite (imap_ext _ (fun i b0 =>
             Z.shiftl (byte_val b0) (CHUNK_SIZE * 8 * Z.of_nat (S k + i))) data).
  - rewrite IH. rewrite Nat2Z.inj_succ, Z.pow_succ_r by lia. ring.
  - intros i x _. cbn. do 3 f_equal. lia.
Qed.

Lemma block_sum_value (data : list byte) : block_sum data = from_bytes_little data.
Proof.
  unfold block_sum. pose proof (block_sum_from data 0) as H.
  cbn [Nat.add] in H. rewrite H. change (256 ^ Z.of_nat 0) with 1. lia.
Qed.

(** ** Concrete worlds *)

(** A world with the given files, no file objects and counters at zero. *)
Definition disk (files : list (string * list byte)) : World :=
  MkWorld (list_to_map files) [] 0 0 [] [].

(** A world with one file and one file object open on it for update. *)
Definition opened (name : string) (data : list byte) : World :=
  MkWorld {[name := data]} [PyFile name WBplus 0 false] 0 0 [] [].

Lemma enough_fuel (n : Z) : 0 <= n -> n < 256 ^ Z.of_nat (Z.to_nat n).
Proof.
  intros Hn. rewrite Z2Nat.id by lia. apply Z.pow_gt_lin_r; lia.
Qed.

(** ** Properties of the program *)

(** C5. Round trip: for every non-negative integer [n], and with fuel for the
    digits of [n], writing [n] to a file with [num_to_file] and reading the
    file back with [file_to_num] returns [n].  What [file_to_num] returns for
    any file is the sum of [block_i << (8 * i)] over its blocks, and that sum
    is 0 for a file of length zero. *)
Theorem codec_round_trip (fuel : nat) (n : Z) (filename : string) (w : World) :
  0 <= n -> n < 256 ^ Z.of_nat fuel ->
  (exists w1 w2,
     runs (num_to_file fuel n filename) w tt w1
     /\ runs (file_to_num filename) w1 n w2)
  /\ (forall w0 data, fs w0 !! filename = Some data ->
        exists w', runs (file_to_num filename) w0 (block_sum data) w')
  /\ block_sum [] = 0.
Proof.
  intros Hn Hfuel. split; [|split; [|done]].
  - destruct (num_to_file_runs fuel n filename w) as (w1 & Hrun1 & Hfs & _); [lia|].
    destruct (file_to_num_runs filename w1 (digits fuel n)) as (w2 & Hrun2 & _).
    { by rewrite Hfs, lookup_insert_eq. }
    exists w1, w2. split; [done|]. by rewrite digits_value in Hrun2 by lia.
  - intros w0 data Hdata.
    destruct (file_to_num_runs filename w0 data Hdata) as (w' & Hrun & _).
    exists w'. by rewrite block_sum_value.
Qed.

Lemma codec_round_trip_witness :
  (0 <= 1000 /\ 1000 < 256 ^ Z.of_nat 2)
  /\ exists w1 w2,
       runs (num_to_file 2 1000 "num.bin") empty_world tt w1
       /\ runs (file_to_num "num.bin") w1 1000 w2.
Proof.
  split; [lia|].
  apply (codec_round_trip 2 1000 "num.bin" empty_world); lia.
Defined.

(** C1. Correctness: for every non-negative integer [n], with fuel for the
    digits of [n] and a result path different from the operand path, encoding
    [n], squaring the file and decoding the result returns [n * n]. *)
Theorem square_decodes_to_square (fuel : nat) (n : Z) (num result : string)
    (w : World) :
  0 <= n -> n < 256 ^ Z.of_nat fuel -> num <> result ->
  exists w1 w2 w3,
    runs (num_to_file fuel n num) w tt w1
    /\ runs (square fuel num result) w1 tt w2
    /\ runs (file_to_num result) w2 (n * n) w3.
Proof.
  intros Hn Hfuel Hne.
  destruct (num_to_file_runs fuel n num w) as (w1 & Hrun1 & Hfs1 & _); [lia|].
  destruct (square_runs fuel num result w1 (digits fuel n))
    as (w2 & dout & T & tr & Hrun2 & Hfs2 & _ & _ & _ & _ & _ & _ & Hv & _).
  { by rewrite Hfs1, lookup_insert_eq. }
  { done. }
  { pose proof (length_digits fuel n). lia. }
  destruct (file_to_num_runs result w2 dout) as (w3 & Hrun3 & _).
  { by rewrite Hfs2, lookup_insert_eq. }
  exists w1, w2, w3. split; [done|]. split; [done|].
  by rewrite Hv, digits_value in Hrun3 by lia.
Qed.

Lemma square_decodes_to_square_witness :
  (0 <= 300 /\ 300 < 256 ^ Z.of_nat 2 /\ "num.bin" <> "result.bin")
  /\ exists w1 w2 w3,
       runs (num_to_file 2 300 "num.bin") empty_world tt w1
       /\ runs (square 2 "num.bin" "result.bin") w1 tt w2
       /\ runs (file_to_num "result.bin") w2 (300 * 300) w3.
Proof.
  split; [split; [lia | split; [lia | discriminate]]|].
  apply (square_decodes_to_square 2 300 "num.bin" "result.bin" empty_world);
    [lia | lia | discriminate].
Defined.

(** C8. Zero: encoding 0 leaves a file of length zero, and squaring a file of
    length zero leaves a result file that decodes to 0. *)
Theorem zero_handling (fuel : nat) (num result : string) (w : World) :
  num <> result ->
  (exists w1, runs (num_to_file fuel 0 num) w tt w1 /\ fs w1 !! num = Some [])
  /\ (forall w0, fs w0 !! num = Some [] ->
        exists w2 w3,
          runs (square fuel num result) w0 tt w2
          /\ runs (file_to_num result) w2 0 w3).
Proof.
  intros Hne. split.
  - destruct (num_to_file_runs fuel 0 num w) as (w1 & Hrun1 & Hfs1 & _).
    { split; [lia | apply Z.pow_pos_nonneg; lia]. }
    exists w1. split; [done|]. rewrite Hfs1, lookup_insert_eq.
    by destruct fuel.
  - intros w0 Hempty.
    destruct (square_runs fuel num result w0 [] Hempty Hne)
      as (w2 & dout & T & tr & Hrun2 & Hfs2 & _ & _ & _ & _ & _ & _ & Hv & _);
      [cbn; lia|].
    destruct (file_to_num_runs result w2 dout) as (w3 & Hrun3 & _).
    { by rewrite Hfs2, lookup_insert_eq. }
    exists w2, w3. split; [done|]. by rewrite Hv in Hrun3.
Qed.

Lemma zero_handling_witness :
  "num.bin" <> "result.bin"
  /\ (exists w1, runs (num_to_file 0 0 "num.bin") empty_world tt w1
                 /\ fs w1 !! "num.bin" = Some [])
  /\ exists w2 w3,
       runs (square 0 "num.bin" "result.bin") (disk [("num.bin", [])]) tt w2
       /\ runs (file_to_num "result.bin") w2 0 w3.
Proof.
  split; [discriminate|].
  destruct (zero_handling 0 "num.bin" "result.bin" empty_world) as [H1 H2];
    [discriminate|].
  split; [exact H1|]. apply H2. reflexivity.
Defined.

(** C9. Frame: [square] leaves the operand file as it was, and every other
    file except the result file too; the operand and the result are different
    files. *)
Theorem square_preserves_operand (fuel : nat) (inp out : string) (w : World)
    (din : list byte) :
  fs w !! inp = Some din -> inp <> out ->
  Z.of_nat (length din) <= Z.of_nat fuel ->
  exists w',
    runs (square fuel inp out) w tt w'
    /\ fs w' !! inp = Some din
    /\ (forall name, name <> out -> fs w' !! name = fs w !! name).
Proof.
  intros Hdin Hne Hfuel.
  destruct (square_runs fuel inp out w din Hdin Hne Hfuel)
    as (w' & dout & T & tr & Hrun & Hfs & _).
  exists w'. split; [done|]. rewrite Hfs. split.
  - by rewrite lookup_insert_ne.
  - intros name Hname. by rewrite lookup_insert_ne.
Qed.

Lemma square_preserves_operand_witness :
  let w := disk [("num.bin", [xff; x10]); ("other.bin", [x01])] in
  (fs w !! "num.bin" = Some [xff; x10] /\ "num.bin" <> "result.bin"
   /\ Z.of_nat (length [xff; x10]) <= Z.of_nat 2)
  /\ exists w',
       runs (square 2 "num.bin" "result.bin") w tt w'
       /\ fs w' !! "num.bin" = Some [xff; x10]
       /\ (forall name, name <> "result.bin" -> fs w' !! name = fs w !! name).
Proof.
  intros w.
  assert (fs w !! "num.bin" = Some [xff; x10]) as Hdin by reflexivity.
  assert ("num.bin" <> "result.bin") as Hne by discriminate.
  assert (Z.of_nat (length [xff; x10]) <= Z.of_nat 2) as Hfuel by (cbn; lia).
  split; [done|].
  exact (square_preserves_operand 2 "num.bin" "result.bin" w [xff; x10] Hdin Hne Hfuel).
Defined.

(** When the result path is the operand path, opening the result truncates
    the operand before its size is read: [square] then does nothing more and
    the file is left empty. *)
Lemma square_same_path (fuel : nat) (path : string) (w : World) (din : list byte) :
  fs w !! path = Some din ->
  exists w', runs (square fuel path path) w tt w' /\ fs w' = <[path := []]> (fs w).
Proof.
  intros Hdin.
  set (infile := length (objs w)).
  set (outfile := length (objs w ++ [PyFile path RB 0 false])).
  assert (outfile = S infile) as Hout
    by (unfold outfile, infile; rewrite length_app; cbn; lia).
  set (w2 := set_fs
               (set_objs w ((objs w ++ [PyFile path RB 0 false])
                              ++ [PyFile path WBplus 0 false]))
               (<[path := []]> (fs w))).
  assert (objs w2 !! infile = Some (PyFile path RB 0 false)) as Hin.
  { cbn. rewrite lookup_app_l by (rewrite length_app; cbn; lia).
    by rewrite lookup_app_r, Nat.sub_diag by lia. }
  assert (fs w2 !! path = Some []) as Hempty by (cbn; by rewrite lookup_insert_eq).
  pose proof (get_file_size_runs w2 infile _ [] Hin eq_refl Hempty) as Hsize.
  set (w3 := set_objs w2 _) in Hsize.
  pose proof (close_fields outfile w3) as (Hc & _).
  pose proof (close_fields infile (close outfile w3)) as (Hd & _).
  exists (close infile (close outfile w3)). split.
  - unfold square, with_open.
    eapply runs_bind; [unfold runs, open; by rewrite Hdin|].
    apply runs_finally.
    eapply runs_bind; [unfold runs, open; cbn; reflexivity|].
    apply runs_finally.
    eapply runs_bind; [exact Hsize|]. apply runs_ret.
  - by rewrite Hd, Hc.
Qed.

(** C10. Access pattern: for an operand of [size] blocks, every write made by
    [square] goes to the result file at a block index below [2 * size], and
    the result file ends at most [2 * size] blocks long. *)
Theorem square_writes_below_twice_size (fuel : nat) (inp out : string) (w : World)
    (din : list byte) :
  fs w !! inp = Some din -> inp <> out ->
  Z.of_nat (length din) <= Z.of_nat fuel ->
  exists w' dout tr,
    runs (square fuel inp out) w tt w'
    /\ trace w' = trace w ++ tr
    /\ (forall name offset len, EvWrite name offset len ∈ tr ->
          name = out /\ len = 1%nat /\ 0 <= offset / CHUNK_SIZE < 2 * Z.of_nat (length din))
    /\ fs w' !! out = Some dout
    /\ Z.of_nat (length dout) <= 2 * Z.of_nat (length din).
Proof.
  intros Hdin Hne Hfuel.
  destruct (square_runs fuel inp out w din Hdin Hne Hfuel)
    as (w' & dout & T & tr & Hrun & Hfs & _ & _ & _ & _ & Htr & Hw & _ & Hlen).
  exists w', dout, tr. split; [done|]. split; [done|]. split; [|split; [|done]].
  - intros name offset len Hin.
    unfold writes_within in Hw. rewrite Forall_forall in Hw.
    specialize (Hw _ Hin). cbn in Hw. destruct Hw as (-> & Hl & Ho & Hb).
    unfold CHUNK_SIZE in *. rewrite Z.div_1_r. repeat split; lia.
  - by rewrite Hfs, lookup_insert_eq.
Qed.

Lemma square_writes_below_twice_size_witness :
  let w := disk [("num.bin", [xff; xff])] in
  (fs w !! "num.bin" = Some [xff; xff] /\ "num.bin" <> "result.bin"
   /\ Z.of_nat (length [xff; xff]) <= Z.of_nat 2)
  /\ exists w' dout tr,
       runs (square 2 "num.bin" "result.bin") w tt w'
       /\ trace w' = trace w ++ tr
       /\ (forall name offset len, EvWrite name offset len ∈ tr ->
             name = "result.bin" /\ len = 1%nat
             /\ 0 <= offset / CHUNK_SIZE < 2 * Z.of_nat (length [xff; xff]))
       /\ fs w' !! "result.bin" = Some dout
       /\ Z.of_nat (length dout) <= 2 * Z.of_nat (length [xff; xff]).
Proof.
  intros w.
  assert (fs w !! "num.bin" = Some [xff; xff]) as Hdin by reflexivity.
  assert ("num.bin" <> "result.bin") as Hne by discriminate.
  assert (Z.of_nat (length [xff; xff]) <= Z.of_nat 2) as Hfuel by (cbn; lia).
  split; [done|].
  exact (square_writes_below_twice_size 2 "num.bin" "result.bin" w [xff; xff]
           Hdin Hne Hfuel).
Defined.

(** C7. Symmetry: for every operand file, the triangular [square] and the
    full schoolbook variant both return, and their result files decode to the
    same integer, the square of the operand. *)
Theorem triangular_matches_full (fuel : nat) (inp out : string) (w : World)
    (din : list byte) :
  fs w !! inp = Some din -> inp <> out ->
  Z.of_nat (length din) <= Z.of_nat fuel ->
  exists wt wf v wt' wf',
    runs (square fuel inp out) w tt wt
    /\ runs (square_full_schoolbook fuel inp out) w tt wf
    /\ runs (file_to_num out) wt v wt'
    /\ runs (file_to_num out) wf v wf'
    /\ v = from_bytes_little din * from_bytes_little din.
Proof.
  intros Hdin Hne Hfuel.
  destruct (square_runs fuel inp out w din Hdin Hne Hfuel)
    as (wt & dt & T & tr & Hrt & Hfst & _ & _ & _ & _ & _ & _ & Hvt & _).
  destruct (square_full_schoolbook_runs fuel inp out w din Hdin Hne Hfuel)
    as (wf & df & Hrf & Hfsf & Hvf).
  destruct (file_to_num_runs out wt dt) as (wt' & Hdt & _);
    [by rewrite Hfst, lookup_insert_eq|].
  destruct (file_to_num_runs out wf df) as (wf' & Hdf & _);
    [by rewrite Hfsf, lookup_insert_eq|].
  exists wt, wf, (from_bytes_little din * from_bytes_little din), wt', wf'.
  rewrite Hvt in Hdt. rewrite Hvf in Hdf. done.
Qed.

Lemma triangular_matches_full_witness :
  let w := disk [("num.bin", [x07; x00; xfe])] in
  (fs w !! "num.bin" = Some [x07; x00; xfe] /\ "num.bin" <> "result.bin"
   /\ Z.of_nat (length [x07; x00; xfe]) <= Z.of_nat 3)
  /\ exists wt wf v wt' wf',
       runs (square 3 "num.bin" "result.bin") w tt wt
       /\ runs (square_full_schoolbook 3 "num.bin" "result.bin") w tt wf
       /\ runs (file_to_num "result.bin") wt v wt'
       /\ runs (file_to_num "result.bin") wf v wf'
       /\ v = from_bytes_little [x07; x00; xfe] * from_bytes_little [x07; x00; xfe].
Proof.
  intros w.
  assert (fs w !! "num.bin" = Some [x07; x00; xfe]) as Hdin by reflexivity.
  assert ("num.bin" <> "result.bin") as Hne by discriminate.
  assert (Z.of_nat (length [x07; x00; xfe]) <= Z.of_nat 3) as Hfuel by (cbn; lia).
  split; [done|].
  exact (triangular_matches_full 3 "num.bin" "result.bin" w [x07; x00; xfe]
           Hdin Hne Hfuel).
Defined.







(** C6. The module's run: starting from 3 and squaring six times, each time
    renaming the result over the operand, the six lines printed carry the
    decoded values 9, 81, 6561, 43046721, 1853020188851841 and
    3433683820292512484657849089281, and the file left behind decodes to the
    last of them. *)
Theorem six_squarings_of_three (fuel : nat) :
  (1 <= fuel)%nat ->
  exists w,
    runs (main fuel) empty_world tt w
    /\ take 6 (stdout w)
       = (fun '(e, v) => "3**" +:+ pretty e +:+ " = " +:+ pretty v)
           <$> [(2, 9); (4, 81); (8, 6561); (16, 43046721);
                (32, 1853020188851841);
                (64, 3433683820292512484657849089281)]
    /\ from_bytes_little <$> fs w !! "num.bin"
       = Some 3433683820292512484657849089281.
Proof.
  intros Hfuel.
  exists (snd (main 1 empty_world)). split; [|split].
  - apply (main_fuel 1 fuel Hfuel). unfold runs. vm_compute. reflexivity.
  - vm_compute. reflexivity.
  - vm_compute. reflexivity.
Qed.

Lemma six_squarings_of_three_witness :
  (1 <= 4)%nat
  /\ exists w,
       runs (main 4) empty_world tt w
       /\ take 6 (stdout w)
          = ["3**2 = 9"; "3**4 = 81"; "3**8 = 6561"; "3**16 = 43046721";
             "3**32 = 1853020188851841";
             "3**64 = 3433683820292512484657849089281"].
Proof.
  split; [lia|].
  destruct (six_squarings_of_three 4 ltac:(lia)) as (w & Hrun & Hout & _).
  exists w. split; [exact Hrun|]. rewrite Hout. reflexivity.
Defined.

(** ** Further properties: block operations *)

(** Measuring a file is free: [get_file_size] returns the length of the file
    in blocks on any open file object, whatever its mode, and changes no
    file, neither counter and not the I/O history. *)
Theorem get_file_size_counts_nothing (w : World) (file : nat) (f : pyfile)
    (data : list byte) :
  objs w !! file = Some f -> f_closed f = false ->
  fs w !! f_name f = Some data ->
  exists w',
    runs (get_file_size file) w (Z.of_nat (length data)) w'
    /\ fs w' = fs w /\ reads w' = reads w /\ writes w' = writes w
    /\ stdout w' = stdout w /\ trace w' = trace w.
Proof.
  intros Hfile Hopen Hdata.
  pose proof (get_file_size_runs w file f data Hfile Hopen Hdata) as Hrun.
  eexists. split; [exact Hrun|]. done.
Qed.

Lemma get_file_size_counts_nothing_witness :
  let w := MkWorld {["num.bin" := [x01; x02; x03]]} [PyFile "num.bin" WB 7 false]
             5 9 [] [] in
  (objs w !! 0%nat = Some (PyFile "num.bin" WB 7 false)
   /\ fs w !! "num.bin" = Some [x01; x02; x03])
  /\ exists w',
       runs (get_file_size 0) w 3 w'
       /\ fs w' = fs w /\ reads w' = 5 /\ writes w' = 9.
Proof.
  intros w.
  assert (objs w !! 0%nat = Some (PyFile "num.bin" WB 7 false)) as Hfile by reflexivity.
  assert (fs w !! "num.bin" = Some [x01; x02; x03]) as Hdata by reflexivity.
  split; [done|].
  destruct (get_file_size_counts_nothing w 0 _ [x01; x02; x03] Hfile eq_refl Hdata)
    as (w' & Hrun & Hfs & Hrd & Hwr & _).
  exists w'. split; [exact Hrun|]. split; [exact Hfs|]. split; [exact Hrd | exact Hwr].
Defined.



(** A block read at a negative index raises from the seek, after the read
    counter was incremented: [OSError] for an index from [-2^63] to [-1],
    [ValueError] for an index below [-2^63], which does not fit the offset
    type.  The failed access is still counted and nothing else changes. *)
Theorem read_block_negative (w : World) (file : nat) (f : pyfile) (pos : Z) :
  objs w !! file = Some f -> f_closed f = false ->
  pos < 0 ->
  read_block file pos w
  = (Raise (if pos <? - 2 ^ 63 then ValueError else OSError),
     set_reads w (reads w + 1)).
Proof.
  intros Hfile Hopen Hpos. unfold read_block, bind.
  rewrite (seek_negative (set_reads w (reads w + 1)) file f Hfile Hopen)
    by (unfold CHUNK_SIZE; lia).
  unfold CHUNK_SIZE. rewrite Z.mul_1_r. reflexivity.
Qed.

Lemma read_block_negative_witness :
  let w := opened "result.bin" [x05] in
  (objs w !! 0%nat = Some (PyFile "result.bin" WBplus 0 false)
   /\ -1 < 0 /\ - 2 ^ 63 - 1 < 0)
  /\ read_block 0 (-1) w = (Raise OSError, set_reads w 1)
  /\ read_block 0 (- 2 ^ 63) w = (Raise OSError, set_reads w 1)
  /\ read_block 0 (- 2 ^ 63 - 1) w = (Raise ValueError, set_reads w 1).
Proof.
  intros w.
  assert (objs w !! 0%nat = Some (PyFile "result.bin" WBplus 0 false)) as Hfile
    by reflexivity.
  assert (-1 < 0) as Hpos by lia.
  assert (- 2 ^ 63 < 0) as Hmin by lia.
  assert (- 2 ^ 63 - 1 < 0) as Hlow by lia.
  split; [done|]. split; [|split].
  - exact (read_block_negative w 0 _ (-1) Hfile eq_refl Hpos).
  - exact (read_block_negative w 0 _ (- 2 ^ 63) Hfile eq_refl Hmin).
  - exact (read_block_negative w 0 _ (- 2 ^ 63 - 1) Hfile eq_refl Hlow).
Defined.

(** A block write at a negative index raises from the seek, for any value,
    after the write counter was incremented: [OSError] for an index from
    [-2^63] to [-1], [ValueError] for an index below [-2^63].  Nothing is
    stored, also when the value itself would not fit a block. *)
Theorem write_block_negative (w : World) (file : nat) (f : pyfile) (pos value : Z) :
  objs w !! file = Some f -> f_closed f = false ->
  pos < 0 ->
  write_block file pos value w
  = (Raise (if pos <? - 2 ^ 63 then ValueError else OSError),
     set_writes w (writes w + 1)).
Proof.
  intros Hfile Hopen Hpos. unfold write_block, bind.
  rewrite (seek_negative (set_writes w (writes w + 1)) file f Hfile Hopen)
    by (unfold CHUNK_SIZE; lia).
  unfold CHUNK_SIZE. rewrite Z.mul_1_r. reflexivity.
Qed.

Lemma write_block_negative_witness :
  let w := opened "result.bin" [x05] in
  (objs w !! 0%nat = Some (PyFile "result.bin" WBplus 0 false)
   /\ -3 < 0 /\ - 2 ^ 63 - 1 < 0)
  /\ write_block 0 (-3) 7 w = (Raise OSError, set_writes w 1)
  /\ write_block 0 (-3) 256 w = (Raise OSError, set_writes w 1)
  /\ write_block 0 (- 2 ^ 63 - 1) 7 w = (Raise ValueError, set_writes w 1).
Proof.
  intros w.
  assert (objs w !! 0%nat = Some (PyFile "result.bin" WBplus 0 false)) as Hfile
    by reflexivity.
  assert (-3 < 0) as Hpos by lia.
  assert (- 2 ^ 63 - 1 < 0) as Hlow by lia.
  split; [done|]. split; [|split].
  - exact (write_block_negative w 0 _ (-3) 7 Hfile eq_refl Hpos).
  - exact (write_block_negative w 0 _ (-3) 256 Hfile eq_refl Hpos).
  - exact (write_block_negative w 0 _ (- 2 ^ 63 - 1) 7 Hfile eq_refl Hlow).
Defined.



(** ** Further properties: [square] *)

(** With no operand file, [square] raises [FileNotFoundError] from the first
    [open] and leaves the world exactly as it was: the result path is neither
    created nor truncated, and nothing is counted. *)
Theorem square_missing_operand (fuel : nat) (inp out : string) (w : World) :
  fs w !! inp = None ->
  square fuel inp out w = (Raise FileNotFoundError, w).
Proof.
  intros Hnone. unfold square, with_open, bind, open. by rewrite Hnone.
Qed.

Lemma square_missing_operand_witness :
  let w := disk [("result.bin", [x09])] in
  fs w !! "num.bin" = None
  /\ square 3 "num.bin" "result.bin" w = (Raise FileNotFoundError, w)
  /\ fs w !! "result.bin" = Some [x09].
Proof.
  intros w.
  assert (fs w !! "num.bin" = None) as Hnone by reflexivity.
  split; [done|]. split; [|reflexivity].
  exact (square_missing_operand 3 "num.bin" "result.bin" w Hnone).
Defined.

(** When the result path is the operand path, [square] returns without
    raising, for any fuel, but the operand is lost: opening the result
    truncates the file before its size is read, so no block is read or
    written and the file is left empty. *)
Theorem square_in_place_empties (fuel : nat) (path : string) (w : World)
    (din : list byte) :
  fs w !! path = Some din ->
  exists w',
    runs (square fuel path path) w tt w'
    /\ fs w' = <[path := []]> (fs w)
    /\ reads w' = reads w /\ writes w' = writes w /\ trace w' = trace w.
Proof.
  intros Hdin.
  set (infile := length (objs w)).
  set (outfile := length (objs w ++ [PyFile path RB 0 false])).
  assert (outfile = S infile) as Hout
    by (unfold outfile, infile; rewrite length_app; cbn; lia).
  set (w2 := set_fs
               (set_objs w ((objs w ++ [PyFile path RB 0 false])
                              ++ [PyFile path WBplus 0 false]))
               (<[path := []]> (fs w))).
  assert (objs w2 !! infile = Some (PyFile path RB 0 false)) as Hin.
  { cbn. rewrite lookup_app_l by (rewrite length_app; cbn; lia).
    by rewrite lookup_app_r, Nat.sub_diag by lia. }
  assert (fs w2 !! path = Some []) as Hempty by (cbn; by rewrite lookup_insert_eq).
  pose proof (get_file_size_runs w2 infile _ [] Hin eq_refl Hempty) as Hsize.
  set (w3 := set_objs w2 _) in Hsize.
  pose proof (close_fields outfile w3) as (Hc1 & Hc2 & Hc3 & _ & Hc5).
  pose proof (close_fields infile (close outfile w3)) as (Hd1 & Hd2 & Hd3 & _ & Hd5).
  exists (close infile (close outfile w3)). split.
  - unfold square, with_open.
    eapply runs_bind; [unfold runs, open; by rewrite Hdin|].
    apply runs_finally.
    eapply runs_bind; [unfold runs, open; cbn; reflexivity|].
    apply runs_finally.
    eapply runs_bind; [exact Hsize|]. apply runs_ret.
  - by rewrite Hd1, Hd2, Hd3, Hd5, Hc1, Hc2, Hc3, Hc5.
Qed.

Lemma square_in_place_empties_witness :
  let w := disk [("num.bin", [x03])] in
  fs w !! "num.bin" = Some [x03]
  /\ exists w',
       runs (square 0 "num.bin" "num.bin") w tt w'
       /\ fs w' = <[ "num.bin" := [] ]> (fs w)
       /\ reads w' = reads w /\ writes w' = writes w /\ trace w' = trace w.
Proof.
  intros w.
  assert (fs w !! "num.bin" = Some [x03]) as Hdin by reflexivity.
  split; [done|].
  exact (square_in_place_empties 0 "num.bin" w [x03] Hdin).
Defined.

(** The length of the result: for an operand of [size >= 1] blocks the result
    file is [2 * size - 1] or [2 * size] blocks long, and for an empty operand
    it is empty.  The result can therefore end in a zero block even when the
    operand does not. *)
Theorem square_result_length (fuel : nat) (inp out : string) (w : World)
    (din : list byte) :
  fs w !! inp = Some din -> inp <> out ->
  Z.of_nat (length din) <= Z.of_nat fuel ->
  exists w' dout,
    runs (square fuel inp out) w tt w'
    /\ fs w' !! out = Some dout
    /\ (din = [] -> dout = [])
    /\ (din <> [] ->
        2 * Z.of_nat (length din) - 1 <= Z.of_nat (length dout)
        <= 2 * Z.of_nat (length din)).
Proof.
  intros Hdin Hne Hfuel.
  destruct (square_runs_length fuel inp out w din Hdin Hne Hfuel)
    as (w' & dout & T & tr & Hrun & Hfs & _ & _ & _ & _ & _ & _ & _ & Hle & Hge).
  exists w', dout. split; [done|]. split; [by rewrite Hfs, lookup_insert_eq|]. split.
  - intros ->. cbn in Hle. destruct dout; [done | cbn in Hle; lia].
  - intros Hnil. destruct din; [done|]. cbn [length] in *. lia.
Qed.

Lemma square_result_length_witness :
  let w := disk [("num.bin", [x10; x00])] in
  (fs w !! "num.bin" = Some [x10; x00] /\ "num.bin" <> "result.bin"
   /\ Z.of_nat (length [x10; x00]) <= Z.of_nat 2)
  /\ exists w' dout,
       runs (square 2 "num.bin" "result.bin") w tt w'
       /\ fs w' !! "result.bin" = Some dout
       /\ 3 <= Z.of_nat (length dout) <= 4.
Proof.
  intros w.
  assert (fs w !! "num.bin" = Some [x10; x00]) as Hdin by reflexivity.
  assert ("num.bin" <> "result.bin") as Hne by discriminate.
  assert (Z.of_nat (length [x10; x00]) <= Z.of_nat 2) as Hfuel by (cbn; lia).
  split; [done|].
  destruct (square_result_length 2 "num.bin" "result.bin" w [x10; x00] Hdin Hne Hfuel)
    as (w' & dout & Hrun & Hfs & _ & Hlen).
  exists w', dout. split; [exact Hrun|]. split; [exact Hfs|].
  apply Hlen. discriminate.
Defined.

(** The trailing [while carry > 0] loop is an addition: started at block [k]
    with carry [carry] on a result file holding [dout], and given fuel up to a
    block [B] below which the sum fits, it returns with the result file
    holding [dout + carry * 256^k] as a number, having made as many reads as
    writes, at most [B - k] of each. *)
Theorem carry_loop_adds (infile outfile : nat) (inp out : string)
    (din dout : list byte) (w : World) (fuel : nat) (k carry B : Z) :
  inp <> out -> infile <> outfile ->
  session infile outfile inp out din w dout ->
  0 <= k -> 0 <= carry ->
  from_bytes_little dout + carry * 256 ^ k < 256 ^ B ->
  B - k <= Z.of_nat fuel ->
  exists w' dout' t,
    runs (propagate_carry fuel outfile k carry) w tt w'
    /\ fs w' = <[out := dout']> (fs w)
    /\ from_bytes_little dout' = from_bytes_little dout + carry * 256 ^ k
    /\ reads w' = reads w + t /\ writes w' = writes w + t
    /\ 0 <= t <= 0 `max` (B - k).
Proof.
  intros Hne Hobjs Hses Hk Hc HB Hfuel.
  destruct (propagate_carry_runs infile outfile inp out din Hne Hobjs B
              (from_bytes_little dout + carry * 256 ^ k) fuel k carry w dout)
    as (w' & dout' & t & tr & Hrun & _ & [Hfs Hrd Hwr _ _] & Ht & Hv & _);
    [done | done | done | done | done | done |].
  by exists w', dout', t.
Qed.

Lemma carry_loop_adds_witness :
  let w := MkWorld {["num.bin" := [x01]; "result.bin" := [xff; xff]]}
             [PyFile "num.bin" RB 0 false; PyFile "result.bin" WBplus 0 false]
             0 0 [] [] in
  ("num.bin" <> "result.bin" /\ 0%nat <> 1%nat
   /\ session 0 1 "num.bin" "result.bin" [x01] w [xff; xff]
   /\ from_bytes_little [xff; xff] + 1 * 256 ^ 0 < 256 ^ 3)
  /\ exists w' dout' t,
       runs (propagate_carry 3 1 0 1) w tt w'
       /\ fs w' = <[ "result.bin" := dout' ]> (fs w)
       /\ from_bytes_little dout' = 65536
       /\ reads w' = t /\ writes w' = t
       /\ 0 <= t <= 3.
Proof.
  intros w.
  assert ("num.bin" <> "result.bin") as Hne by discriminate.
  assert (0%nat <> 1%nat) as Hobjs by discriminate.
  assert (session 0 1 "num.bin" "result.bin" [x01] w [xff; xff]) as Hses.
  { split; [by exists 0 | by exists 0 | reflexivity | reflexivity]. }
  assert (from_bytes_little [xff; xff] + 1 * 256 ^ 0 < 256 ^ 3) as HB
    by (vm_compute; reflexivity).
  split; [done|].
  destruct (carry_loop_adds 0 1 "num.bin" "result.bin" [x01] [xff; xff] w 3 0 1 3
              Hne Hobjs Hses ltac:(lia) ltac:(lia) HB ltac:(lia))
    as (w' & dout' & t & Hrun & Hfs & Hv & Hrd & Hwr & Ht).
  exists w', dout', t. split; [exact Hrun|]. split; [exact Hfs|].
  split; [exact Hv|]. split; [exact Hrd|]. split; [exact Hwr | exact Ht].
Defined.

Lemma headv_bound (data : list byte) (k : Z) : 0 <= k -> headv data k < 256 ^ k.
Proof.
  intros Hk. unfold headv.
  pose proof (from_bytes_little_bound (take (Z.to_nat k) data)) as H.
  rewrite length_take in H.
  assert (256 ^ Z.of_nat (Z.to_nat k `min` length data) <= 256 ^ k)
    by (apply Z.pow_le_mono_r; lia).
  lia.
Qed.

(** Block [j] of a store is digit [j] of its value in base 256. *)
Lemma blk_digit (data : list byte) (j : Z) :
  0 <= j -> blk data j = from_bytes_little data / 256 ^ j mod 256.
Proof.
  intros Hj.
  pose proof (headv_tailv data j Hj) as Hsplit.
  pose proof (headv_bound data j Hj) as Hb.
  pose proof (headv_nonneg data j) as H0.
  pose proof (blk_range data j) as Hr.
  assert (0 < 256 ^ j) as Hp by (apply Z.pow_pos_nonneg; lia).
  assert (from_bytes_little data / 256 ^ j = tailv data j) as ->.
  { rewrite Hsplit, Z.add_comm, Z.mul_comm, Z.div_add_l by lia.
    rewrite (Z.div_small (headv data j)) by lia. lia. }
  rewrite (tailv_step data j Hj).
  rewrite (Z.mul_comm 256), Z.mod_add by lia. by rewrite Z.mod_small.
Qed.

(** Block by block: after [square], block [j] of the result file is digit [j]
    of the square of the operand's value in base 256, for every [j >= 0]
    (zero at and past the end of the file); this is what a block read of the
    result file at [j] returns. *)
Theorem square_result_blocks (fuel : nat) (inp out : string) (w : World)
    (din : list byte) :
  fs w !! inp = Some din -> inp <> out ->
  Z.of_nat (length din) <= Z.of_nat fuel ->
  exists w' dout,
    runs (square fuel inp out) w tt w'
    /\ fs w' !! out = Some dout
    /\ forall j, 0 <= j ->
         blk dout j
         = from_bytes_little din * from_bytes_little din / 256 ^ j mod 256.
Proof.
  intros Hdin Hne Hfuel.
  destruct (square_runs fuel inp out w din Hdin Hne Hfuel)
    as (w' & dout & T & tr & Hrun & Hfs & _ & _ & _ & _ & _ & _ & Hv & _).
  exists w', dout. split; [done|]. split; [by rewrite Hfs, lookup_insert_eq|].
  intros j Hj. rewrite <- Hv. by apply blk_digit.
Qed.

Lemma square_result_blocks_witness :
  let w := disk [("num.bin", [x00; x01])] in
  (fs w !! "num.bin" = Some [x00; x01] /\ "num.bin" <> "result.bin"
   /\ Z.of_nat (length [x00; x01]) <= Z.of_nat 2)
  /\ exists w' dout,
       runs (square 2 "num.bin" "result.bin") w tt w'
       /\ fs w' !! "result.bin" = Some dout
       /\ blk dout 2 = 1 /\ blk dout 1 = 0.
Proof.
  intros w.
  assert (fs w !! "num.bin" = Some [x00; x01]) as Hdin by reflexivity.
  assert ("num.bin" <> "result.bin") as Hne by discriminate.
  assert (Z.of_nat (length [x00; x01]) <= Z.of_nat 2) as Hfuel by (cbn; lia).
  split; [done|].
  destruct (square_result_blocks 2 "num.bin" "result.bin" w [x00; x01] Hdin Hne Hfuel)
    as (w' & dout & Hrun & Hfs & Hblk).
  exists w', dout. split; [exact Hrun|]. split; [exact Hfs|].
  split; [exact (Hblk 2 ltac:(lia)) | exact (Hblk 1 ltac:(lia))].
Defined.

(** ** Further properties: the codec *)

(** Decoding counts its reads and nothing else: [file_to_num] on a file of
    [size] blocks returns the file's little-endian value, adds [size] to the
    read counter, leaves the write counter, every file and the console as
    they were. *)
Theorem file_to_num_counts_reads (filename : string) (w : World) (data : list byte) :
  fs w !! filename = Some data ->
  exists w',
    runs (file_to_num filename) w (from_bytes_little data) w'
    /\ fs w' = fs w
    /\ reads w' = reads w + Z.of_nat (length data)
    /\ writes w' = writes w
    /\ stdout w' = stdout w.
Proof. apply file_to_num_runs. Qed.

Lemma file_to_num_counts_reads_witness :
  let w := disk [("num.bin", [x00; x01; x00])] in
  fs w !! "num.bin" = Some [x00; x01; x00]
  /\ exists w',
       runs (file_to_num "num.bin") w 256 w'
       /\ fs w' = fs w /\ reads w' = 3 /\ writes w' = 0.
Proof.
  intros w.
  assert (fs w !! "num.bin" = Some [x00; x01; x00]) as Hdata by reflexivity.
  split; [done|].
  destruct (file_to_num_counts_reads "num.bin" w [x00; x01; x00] Hdata)
    as (w' & Hrun & Hfs & Hrd & Hwr & _).
  exists w'. split; [exact Hrun|]. split; [exact Hfs|]. split; [exact Hrd | exact Hwr].
Defined.

(** Decoding a file that does not exist raises [FileNotFoundError] and leaves
    the world as it was. *)
Theorem file_to_num_missing (filename : string) (w : World) :
  fs w !! filename = None ->
  file_to_num filename w = (Raise FileNotFoundError, w).
Proof.
  intros Hnone. unfold file_to_num, with_open, bind, open. by rewrite Hnone.
Qed.

Lemma file_to_num_missing_witness :
  fs empty_world !! "num.bin" = None
  /\ file_to_num "num.bin" empty_world = (Raise FileNotFoundError, empty_world).
Proof.
  assert (fs empty_world !! "num.bin" = None) as Hnone by reflexivity.
  split; [done|]. exact (file_to_num_missing "num.bin" empty_world Hnone).
Defined.

Lemma num_to_file_loop_negative (fuel : nat) (f : nat) (name : string) :
  forall (n : Z) (w : World) (data : list byte) (p : Z),
    n < 0 ->
    objs w !! f = Some (PyFile name WB p false) ->
    fs w !! name = Some data ->
    fst (num_to_file_loop fuel f n w) = Raise OutOfFuel.
Proof.
  induction fuel as [|fuel IH]; intros n w data p Hn Hf Hdata;
    cbn [num_to_file_loop]; destruct (Z.eqb_spec n 0) as [->|_]; try lia.
  - reflexivity.
  - assert (0 <= n mod 256 < 256) as Hm by (apply Z.mod_pos_bound; lia).
    pose proof (write_runs w f _ Hf eq_refl data [byte_of_Z (n mod 256)] eq_refl Hdata)
      as Hw.
    cbn [f_name f_mode f_pos length] in Hw.
    set (w1 := set_trace _ _) in Hw.
    unfold bind, lift. rewrite land_block_mask, to_bytes_little_block by done.
    rewrite Hw.
    apply (IH _ w1 (write_at data (Z.to_nat p) [byte_of_Z (n mod 256)])
             (p + Z.of_nat 1)).
    + rewrite shiftr_chunk. apply Z.div_lt_upper_bound; lia.
    + cbn. apply list_lookup_insert_eq. by eapply lookup_lt_Some.
    + cbn. by rewrite lookup_insert_eq.
Qed.

(** [num_to_file] does not terminate on a negative number: shifting a
    negative integer right never reaches zero, so the [while n] loop runs for
    as long as it is allowed to, whatever the fuel. *)
Theorem num_to_file_negative_never_ends (fuel : nat) (n : Z) (filename : string)
    (w : World) :
  n < 0 ->
  fst (num_to_file fuel n filename w) = Raise OutOfFuel.
Proof.
  intros Hn. unfold num_to_file, with_open, bind, finally.
  change (open filename WB w)
    with (Ok (length (objs w)),
          set_fs (set_objs w (objs w ++ [PyFile filename WB 0 false]))
            (<[filename := []]> (fs w))).
  cbv iota beta.
  set (w1 := set_fs _ _).
  pose proof (num_to_file_loop_negative fuel (length (objs w)) filename n w1 [] 0 Hn)
    as H.
  destruct (num_to_file_loop fuel (length (objs w)) n w1) as [r w2].
  cbn [fst] in *. apply H.
  - cbn. by rewrite lookup_app_r, Nat.sub_diag by lia.
  - cbn. by rewrite lookup_insert_eq.
Qed.

Lemma num_to_file_negative_never_ends_witness :
  -1 < 0 /\ fst (num_to_file 50 (-1) "num.bin" empty_world) = Raise OutOfFuel.
Proof.
  assert (-1 < 0) as Hn by lia.
  split; [done|].
  exact (num_to_file_negative_never_ends 50 (-1) "num.bin" empty_world Hn).
Defined.

Lemma digits_0 (fuel : nat) : digits fuel 0 = [].
Proof. by destruct fuel. Qed.

Lemma digits_minimal (fuel : nat) (n : Z) :
  0 < n < 256 ^ Z.of_nat fuel ->
  256 ^ (Z.of_nat (length (digits fuel n)) - 1) <= n.
Proof.
  revert n; induction fuel as [|fuel IH]; intros n Hn.
  - cbn in Hn. lia.
  - cbn [digits]. destruct (Z.eqb_spec n 0) as [->|Hne]; [lia|].
    cbn [length]. rewrite Nat2Z.inj_succ.
    rewrite Nat2Z.inj_succ, Z.pow_succ_r in Hn by lia.
    destruct (Z.eq_dec (n / 256) 0) as [Hz|Hnz].
    + rewrite Hz, digits_0. cbn. lia.
    + assert (0 < n / 256) as Hpos.
      { pose proof (Z.div_pos n 256 ltac:(lia) ltac:(lia)). lia. }
      assert (n / 256 < 256 ^ Z.of_nat fuel) as Hup
        by (apply Z.div_lt_upper_bound; lia).
      specialize (IH (n / 256) (conj Hpos Hup)).
      replace (Z.succ (Z.of_nat (length (digits fuel (n / 256)))) - 1)
        with (Z.succ (Z.of_nat (length (digits fuel (n / 256))) - 1)) by lia.
      assert (0 < length (digits fuel (n / 256)))%nat as Hlen.
      { destruct fuel; cbn [digits] in *; [cbn in Hn; lia|].
        destruct (Z.eqb_spec (n / 256) 0); [lia | cbn; lia]. }
      rewrite Z.pow_succ_r by lia.
      pose proof (Z.mul_div_le n 256 ltac:(lia)). lia.
Qed.

Lemma byte_val_inj (b1 b2 : byte) : byte_val b1 = byte_val b2 -> b1 = b2.
Proof.
  unfold byte_val. intros H. apply N2Z.inj in H.
  pose proof (Byte.of_to_N b1) as H1. rewrite H, Byte.of_to_N in H1. congruence.
Qed.

Lemma digits_no_trailing_zero (fuel : nat) (n : Z) :
  0 <= n < 256 ^ Z.of_nat fuel -> last (digits fuel n) <> Some x00.
Proof.
  revert n; induction fuel as [|fuel IH]; intros n Hn.
  - cbn [digits]. by destruct (n =? 0).
  - cbn [digits]. destruct (Z.eqb_spec n 0) as [->|Hne]; [done|].
    rewrite Nat2Z.inj_succ, Z.pow_succ_r in Hn by lia.
    rewrite last_cons.
    assert (0 <= n / 256 < 256 ^ Z.of_nat fuel) as Hquot
      by (split; [apply Z.div_pos; lia | apply Z.div_lt_upper_bound; lia]).
    specialize (IH (n / 256) Hquot).
    destruct (last (digits fuel (n / 256))) as [y|] eqn:E; [done|].
    apply last_None in E.
    assert (n / 256 = 0) as Hz.
    { destruct fuel; cbn [digits] in E.
      - cbn in Hn. apply Z.div_small. lia.
      - destruct (Z.eqb_spec (n / 256) 0); [done | discriminate]. }
    intros [= Hb].
    assert (byte_val (byte_of_Z (n mod 256)) = 0) as H0 by (by rewrite Hb).
    rewrite byte_val_of_Z in H0 by (apply Z.mod_pos_bound; lia).
    pose proof (Z.div_mod n 256 ltac:(lia)). lia.
Qed.

(** Encoding is minimal: for [n >= 0] and enough fuel, [num_to_file] replaces
    whatever the file held by the shortest little-endian representation of
    [n]: no block for 0, otherwise [len] blocks with
    [256^(len-1) <= n < 256^len], the last of them non-zero.  It counts no
    write: it writes through the file object, not through [write_block]. *)
Theorem num_to_file_minimal (fuel : nat) (n : Z) (filename : string) (w : World) :
  0 <= n < 256 ^ Z.of_nat fuel ->
  exists w' data,
    runs (num_to_file fuel n filename) w tt w'
    /\ fs w' = <[filename := data]> (fs w)
    /\ from_bytes_little data = n
    /\ (n = 0 -> data = [])
    /\ (0 < n ->
        256 ^ (Z.of_nat (length data) - 1) <= n < 256 ^ Z.of_nat (length data))
    /\ last data <> Some x00
    /\ reads w' = reads w /\ writes w' = writes w.
Proof.
  intros Hn.
  destruct (num_to_file_runs fuel n filename w Hn) as (w' & Hrun & Hfs & Hrd & Hwr & _).
  exists w', (digits fuel n). split; [done|]. split; [done|].
  split; [by apply digits_value|]. split; [intros ->; apply digits_0|]. split.
  - intros Hpos. split; [apply digits_minimal; lia|].
    pose proof (from_bytes_little_bound (digits fuel n)) as Hb.
    by rewrite digits_value in Hb.
  - split; [by apply digits_no_trailing_zero | done].
Qed.

Lemma num_to_file_minimal_witness :
  let w := MkWorld {["num.bin" := [x07; x07; x07; x07]]} [] 4 2 [] [] in
  0 <= 65536 < 256 ^ Z.of_nat 5
  /\ exists w' data,
       runs (num_to_file 5 65536 "num.bin") w tt w'
       /\ fs w' = <[ "num.bin" := data ]> (fs w)
       /\ from_bytes_little data = 65536
       /\ 256 ^ (Z.of_nat (length data) - 1) <= 65536 < 256 ^ Z.of_nat (length data)
       /\ reads w' = 4 /\ writes w' = 2.
Proof.
  intros w.
  assert (0 <= 65536 < 256 ^ Z.of_nat 5) as Hn by (cbn; lia).
  split; [done|].
  destruct (num_to_file_minimal 5 65536 "num.bin" w Hn)
    as (w' & data & Hrun & Hfs & Hv & _ & Hlen & _ & Hrd & Hwr).
  exists w', data. split; [exact Hrun|]. split; [exact Hfs|]. split; [exact Hv|].
  split; [apply Hlen; lia|]. split; [exact Hrd | exact Hwr].
Defined.

Lemma digits_from_bytes (data : list byte) :
  forall fuel : nat,
    last data <> Some x00 -> (length data <= fuel)%nat ->
    digits fuel (from_bytes_little data) = data.
Proof.
  induction data as [|b l IH]; intros fuel Hlast Hlen.
  - apply digits_0.
  - destruct fuel as [|fuel]; [cbn in Hlen; lia|].
    cbn [length] in Hlen. cbn [from_bytes_little digits].
    pose proof (byte_val_range b) as Hb.
    pose proof (from_bytes_little_nonneg l) as Hl.
    assert (last l <> Some x00) as Hlast'.
    { rewrite last_cons in Hlast. by destruct (last l). }
    specialize (IH fuel Hlast' ltac:(lia)).
    assert (byte_val b + 256 * from_bytes_little l <> 0) as Hne.
    { destruct l as [|b' l'].
      - cbn. intros H0. apply Hlast. cbn. f_equal.
        apply byte_val_inj. cbn. lia.
      - intros H0. assert (from_bytes_little (b' :: l') = 0) as Hz by lia.
        rewrite Hz, digits_0 in IH. discriminate IH. }
    destruct (Z.eqb_spec (byte_val b + 256 * from_bytes_little l) 0); [done|].
    replace ((byte_val b + 256 * from_bytes_little l) mod 256) with (byte_val b).
    2: { rewrite (Z.mul_comm 256), Z.mod_add by lia. by rewrite Z.mod_small. }
    replace ((byte_val b + 256 * from_bytes_little l) / 256) with (from_bytes_little l).
    2: { rewrite (Z.mul_comm 256), Z.div_add by lia.
         rewrite (Z.div_small (byte_val b)) by lia. lia. }
    rewrite IH. f_equal.
    apply byte_val_inj. apply byte_val_of_Z. lia.
Qed.

(** The other round trip: decoding a file that does not end in a zero block
    and encoding the value again, into any file, reproduces the blocks of the
    first file exactly. *)
Theorem decode_then_encode (fuel : nat) (src dst : string) (w : World)
    (data : list byte) :
  fs w !! src = Some data ->
  last data <> Some x00 ->
  (length data <= fuel)%nat ->
  exists v w1 w2,
    runs (file_to_num src) w v w1
    /\ runs (num_to_file fuel v dst) w1 tt w2
    /\ fs w2 !! dst = Some data.
Proof.
  intros Hdata Hlast Hlen.
  destruct (file_to_num_runs src w data Hdata) as (w1 & Hrun1 & Hfs1 & _).
  pose proof (from_bytes_little_nonneg data) as H0.
  pose proof (from_bytes_little_bound data) as Hb.
  assert (256 ^ Z.of_nat (length data) <= 256 ^ Z.of_nat fuel) as Hpow
    by (apply Z.pow_le_mono_r; lia).
  destruct (num_to_file_runs fuel (from_bytes_little data) dst w1)
    as (w2 & Hrun2 & Hfs2 & _); [lia|].
  exists (from_bytes_little data), w1, w2. split; [done|]. split; [done|].
  by rewrite Hfs2, lookup_insert_eq, digits_from_bytes.
Qed.

Lemma decode_then_encode_witness :
  let w := disk [("num.bin", [x00; x00; x2a])] in
  (fs w !! "num.bin" = Some [x00; x00; x2a]
   /\ last [x00; x00; x2a] <> Some x00
   /\ (length [x00; x00; x2a] <= 3)%nat)
  /\ exists v w1 w2,
       runs (file_to_num "num.bin") w v w1
       /\ runs (num_to_file 3 v "copy.bin") w1 tt w2
       /\ fs w2 !! "copy.bin" = Some [x00; x00; x2a].
Proof.
  intros w.
  assert (fs w !! "num.bin" = Some [x00; x00; x2a]) as Hdata by reflexivity.
  assert (last [x00; x00; x2a] <> Some x00) as Hlast by discriminate.
  assert (length [x00; x00; x2a] <= 3)%nat as Hlen by (cbn; lia).
  split; [done|].
  exact (decode_then_encode 3 "num.bin" "copy.bin" w [x00; x00; x2a] Hdata Hlast Hlen).
Defined.

(** ** Further properties: the driving loop *)

(** The body of the module's [for i in range(6)] loop, named so that one
    iteration can be reasoned about; [main_loops] shows that [main] is made of
    it. *)
Definition main_step (fuel : nat) (i : Z) : M unit :=
  square fuel "num.bin" "result.bin" ;;
  os_replace "result.bin" "num.bin" ;;
  v <- file_to_num "num.bin" ;;
  print ("3**" +:+ pretty (2 ^ (i + 1)) +:+ " = " +:+ pretty v).

Lemma main_loops (fuel : nat) :
  main fuel
  = ((fun w => (Ok tt, set_reads (set_writes w 0) 0)) ;;
     num_to_file fuel 3 "num.bin" ;;
     for_ (range 0 6) (main_step fuel) ;;
     (fun w =>
        print ("Total reads: " +:+ pretty (reads w) +:+ ", Total writes: "
                 +:+ pretty (writes w)) w)).
Proof. reflexivity. Qed.

(** The line one iteration prints for exponent index [i] and value [v]. *)
Definition report (i v : Z) : string :=
  "3**" +:+ pretty (2 ^ (i + 1)) +:+ " = " +:+ pretty v.

(** One iteration of the driving loop, from any operand in [num.bin]: it
    returns, [num.bin] now holds the square, [result.bin] is gone (whether or
    not a stale one existed), every other file is untouched, and one line
    with the square is printed.  Decoding for the report costs one counted
    read per block of the new operand on top of the reads of [square]. *)
Theorem main_step_squares (fuel : nat) (i : Z) (w : World) (din : list byte) :
  fs w !! "num.bin" = Some din ->
  Z.of_nat (length din) <= Z.of_nat fuel ->
  let size := Z.of_nat (length din) in
  exists w' dout T,
    runs (main_step fuel i) w tt w'
    /\ fs w' = <[ "num.bin" := dout ]> (delete "result.bin" (fs w))
    /\ from_bytes_little dout = from_bytes_little din * from_bytes_little din
    /\ Z.of_nat (length dout) <= 2 * size
    /\ stdout w' = stdout w ++ [report i (from_bytes_little din * from_bytes_little din)]
    /\ 0 <= T <= size * (size + 1) / 2
    /\ reads w' = reads w + size * (size + 1) + T + Z.of_nat (length dout)
    /\ writes w' = writes w + size * (size + 1) / 2 + T.
Proof.
  intros Hdin Hfuel size.
  destruct (square_runs fuel "num.bin" "result.bin" w din Hdin ltac:(discriminate) Hfuel)
    as (w1 & dout & T & tr & Hrun1 & Hfs1 & Hrd1 & Hwr1 & HT & Hso1 & _ & _ & Hv & Hlen).
  fold size in Hrd1, Hwr1, HT, Hlen.
  set (w2 := set_fs w1 (<[ "num.bin" := dout ]> (delete "result.bin" (fs w1)))).
  assert (runs (os_replace "result.bin" "num.bin") w1 tt w2) as Hrun2.
  { assert (fs w1 !! "result.bin" = Some dout) as E
      by (rewrite Hfs1; apply lookup_insert_eq).
    unfold runs, os_replace. by rewrite E. }
  destruct (file_to_num_runs "num.bin" w2 dout)
    as (w3 & Hrun3 & Hfs3 & Hrd3 & Hwr3 & Hso3).
  { cbn. by rewrite lookup_insert_eq. }
  eexists _, dout, T. split.
  { unfold main_step. eapply runs_bind; [exact Hrun1|].
    eapply runs_bind; [exact Hrun2|].
    eapply runs_bind; [exact Hrun3|]. reflexivity. }
  cbn. rewrite Hfs3, Hrd3, Hwr3, Hso3. cbn. rewrite Hfs1, Hrd1, Hwr1, Hso1.
  rewrite delete_insert_eq, Hv. fold (report i (from_bytes_little din * from_bytes_little din)).
  repeat split; try done; lia.
Qed.

Lemma main_step_squares_witness :
  let w := disk [("num.bin", [x09]); ("result.bin", [x01; x02; x03])] in
  (fs w !! "num.bin" = Some [x09] /\ Z.of_nat (length [x09]) <= Z.of_nat 1)
  /\ exists w' dout,
       runs (main_step 1 1) w tt w'
       /\ fs w' = <[ "num.bin" := dout ]> (delete "result.bin" (fs w))
       /\ from_bytes_little dout = 81
       /\ stdout w' = ["3**4 = 81"].
Proof.
  intros w.
  assert (fs w !! "num.bin" = Some [x09]) as Hdin by reflexivity.
  assert (Z.of_nat (length [x09]) <= Z.of_nat 1) as Hfuel by (cbn; lia).
  split; [done|].
  destruct (main_step_squares 1 1 w [x09] Hdin Hfuel)
    as (w' & dout & T & Hrun & Hfs & Hv & _ & Hso & _).
  exists w', dout. split; [exact Hrun|]. split; [exact Hfs|].
  split; [exact Hv | exact Hso].
Defined.

Lemma range_snoc (i : Z) : 0 <= i -> range 0 (i + 1) = range 0 i ++ [i].
Proof.
  intros Hi. unfold range.
  replace (i + 1 - 0) with (i + 1) by lia. replace (i - 0) with i by lia.
  rewrite seqZ_app by lia. f_equal.
Qed.

(** The loop composes squarings: [k] iterations from an operand of value [N]
    leave [num.bin] holding [N^(2^k)] and print, at iteration [i], the value
    [N^(2^(i+1))]; fuel for the final length, [2^k] times that of the
    operand, is enough for every iteration. *)
Theorem repeated_squaring (fuel : nat) (k : Z) (w : World) (din : list byte) :
  0 <= k ->
  fs w !! "num.bin" = Some din ->
  2 ^ k * Z.of_nat (length din) <= Z.of_nat fuel ->
  exists w' dk,
    runs (for_ (range 0 k) (main_step fuel)) w tt w'
    /\ fs w' !! "num.bin" = Some dk
    /\ from_bytes_little dk = from_bytes_little din ^ (2 ^ k)
    /\ stdout w'
       = stdout w
         ++ ((fun i => report i (from_bytes_little din ^ (2 ^ (i + 1)))) <$> range 0 k).
Proof.
  intros Hk Hdin Hfuel.
  set (N := from_bytes_little din).
  pose (I := fun (i : Z) (w' : World) =>
    exists d,
      fs w' !! "num.bin" = Some d
      /\ from_bytes_little d = N ^ (2 ^ i)
      /\ Z.of_nat (length d) <= 2 ^ i * Z.of_nat (length din)
      /\ stdout w' = stdout w ++ ((fun i => report i (N ^ (2 ^ (i + 1)))) <$> range 0 i)).
  destruct (for_range I (main_step fuel) 0 k) with (w := w)
    as (w' & Hrun & dk & Hfs & Hv & _ & Hso).
  - done.
  - intros i w1 Hi (d & Hd & Hvd & Hld & Hsd).
    assert (0 < 2 ^ i) as Hp by (apply Z.pow_pos_nonneg; lia).
    assert (2 ^ i <= 2 ^ k) as Hmono by (apply Z.pow_le_mono_r; lia).
    assert (2 ^ (i + 1) = 2 ^ i + 2 ^ i) as Hdouble
      by (rewrite Z.pow_add_r by lia; change (2 ^ 1) with 2; lia).
    destruct (main_step_squares fuel i w1 d Hd)
      as (w2 & dout & T & Hrun & Hfs & Hv & Hlen & Hso & _); [nia|].
    exists w2. split; [exact Hrun|].
    exists dout. split; [by rewrite Hfs, lookup_insert_eq|]. split.
    { rewrite Hv, Hvd, Hdouble. by rewrite Z.pow_add_r by lia. }
    split; [nia|].
    rewrite Hso, Hsd, range_snoc, fmap_app, <- app_assoc by lia.
    cbn. rewrite Hvd, Hdouble. by rewrite Z.pow_add_r by lia.
  - exists din. split; [done|]. split.
    { change (2 ^ 0) with 1. by rewrite Z.pow_1_r. }
    split; [change (2 ^ 0) with 1; lia|].
    unfold range. rewrite seqZ_nil by lia. cbn. by rewrite app_nil_r.
  - by exists w', dk.
Qed.

Lemma repeated_squaring_witness :
  let w := disk [("num.bin", [x05])] in
  (0 <= 3 /\ fs w !! "num.bin" = Some [x05]
   /\ 2 ^ 3 * Z.of_nat (length [x05]) <= Z.of_nat 8)
  /\ exists w' dk,
       runs (for_ (range 0 3) (main_step 8)) w tt w'
       /\ fs w' !! "num.bin" = Some dk
       /\ from_bytes_little dk = 390625
       /\ stdout w' = ["3**2 = 25"; "3**4 = 625"; "3**8 = 390625"].
Proof.
  intros w.
  assert (0 <= 3) as Hk by lia.
  assert (fs w !! "num.bin" = Some [x05]) as Hdin by reflexivity.
  assert (2 ^ 3 * Z.of_nat (length [x05]) <= Z.of_nat 8) as Hfuel by (cbn; lia).
  split; [done|].
  destruct (repeated_squaring 8 3 w [x05] Hk Hdin Hfuel) as (w' & dk & Hrun & Hfs & Hv & Hso).
  exists w', dk. split; [exact Hrun|]. split; [exact Hfs|].
  split; [exact Hv | exact Hso].
Defined.
